(** * UDP <-> CAN multi-channel loop-back harness

    A shallow embedding of [tests/udp_can_loopback_pingpong_multi.py]:
    the two wire formats, the per-channel statistics, the per-port
    mailbox that demultiplexes UDP datagrams by CAN identifier, and the
    test cycle of a channel tester.

    Conventions.
    - Python [bytes] are [list byte]; Python [int]s are [Z].
    - Clock readings ([time.time()]) and durations are integers counted in
      milliseconds: the source only adds, subtracts and compares them.
    - Everything a call obtains from outside the process (a datagram, a
      clock reading, the state of the stop event, an [OSError]) is an
      explicit input of the function that models the call.
    - A blocking loop is run against a finite script of such inputs; when
      the script ends while the loop is still waiting the result is
      [Pending]. *)

From Stdlib Require Import ZArith Lia.
From Stdlib.Strings Require Import Byte.
From stdpp Require Import gmap strings list.

Open Scope Z_scope.

(** ** Bytes and the two [struct] layouts *)

#[global] Instance byte_eq_dec : EqDecision byte := Byte.byte_eq_dec.

Definition byte_to_Z (b : byte) : Z := Z.of_N (Byte.to_N b).

Definition Z_to_byte (z : Z) : byte :=
  match Byte.of_N (Z.to_N (z mod 256)) with
  | Some b => b
  | None => x00
  end.

(** Unsigned 32-bit integer from four bytes, most significant first. *)
Definition be_u32 (b3 b2 b1 b0 : byte) : Z :=
  Z.lor (Z.shiftl (byte_to_Z b3) 24)
    (Z.lor (Z.shiftl (byte_to_Z b2) 16)
       (Z.lor (Z.shiftl (byte_to_Z b1) 8) (byte_to_Z b0))).

(** The byte order [struct] uses for the ["="] prefix: that of the host. *)
Inductive byteorder := little | big.

Definition u32_of_bytes (bo : byteorder) (a b c d : byte) : Z :=
  match bo with
  | big => be_u32 a b c d
  | little => be_u32 d c b a
  end.

Definition u32_to_bytes (bo : byteorder) (z : Z) : list byte :=
  let b0 := Z_to_byte z in
  let b1 := Z_to_byte (Z.shiftr z 8) in
  let b2 := Z_to_byte (Z.shiftr z 16) in
  let b3 := Z_to_byte (Z.shiftr z 24) in
  match bo with
  | big => [b3; b2; b1; b0]
  | little => [b0; b1; b2; b3]
  end.

(** [struct]'s ["Ns"] on packing: cut to [n] bytes, or fill with zero bytes. *)
Definition pack_s (n : nat) (s : list byte) : list byte :=
  take n s ++ replicate (n - length s)%nat x00.

(** [UDP_STRUCT = struct.Struct(">BI8s")] *)
Definition UDP_STRUCT_size : nat := 13.

(** [CAN_STRUCT = struct.Struct("=IB3s8s")] *)
Definition CAN_STRUCT_size : nat := 16.

Definition CAN_EFF_FLAG : Z := 0x80000000.
Definition CAN_EFF_MASK : Z := 0x1FFFFFFF.

(** [UDP_STRUCT.unpack(buf)]: [None] stands for [struct.error], raised
    when the buffer is not 13 bytes long. *)
Definition UDP_STRUCT_unpack (buf : list byte) : option (Z * Z * list byte) :=
  match buf with
  | info :: i3 :: i2 :: i1 :: i0 :: data =>
      if (length data =? 8)%nat
      then Some (byte_to_Z info, be_u32 i3 i2 i1 i0, data)
      else None
  | _ => None
  end.

Section Native.

(** The host's byte order, which the CAN layout follows. *)
Variable native : byteorder.

(** [CAN_STRUCT.pack(can_id, dlc, pad, data)]: [None] stands for
    [struct.error], raised when an integer does not fit its field. *)
Definition CAN_STRUCT_pack (can_id dlc : Z) (pad data : list byte)
  : option (list byte) :=
  if bool_decide (0 <= can_id < 2 ^ 32) && bool_decide (0 <= dlc < 256)
  then Some (u32_to_bytes native can_id ++ [Z_to_byte dlc]
               ++ pack_s 3 pad ++ pack_s 8 data)
  else None.

(** [CAN_STRUCT.unpack(buf)]: [None] stands for [struct.error], raised
    when the buffer is not 16 bytes long. *)
Definition CAN_STRUCT_unpack (buf : list byte)
  : option (Z * Z * list byte * list byte) :=
  match buf with
  | a :: b :: c :: d :: dlc :: p0 :: p1 :: p2 :: data =>
      if (length data =? 8)%nat
      then Some (u32_of_bytes native a b c d, byte_to_Z dlc, [p0; p1; p2], data)
      else None
  | _ => None
  end.

End Native.

(** ** Channel statistics *)

Record ChannelStats := mkChannelStats {
  label : string;
  id_min : Z;
  id_max : Z;
  total : Z;
  success : Z;
  udp_timeouts : Z;
  can_timeouts : Z;
  data_errors : Z;
  send_errors : Z;
  last_id : Z
}.

(** [ChannelStats.__init__] *)
Definition ChannelStats_init (lbl : string) (lo hi : Z) : ChannelStats :=
  mkChannelStats lbl lo hi 0 0 0 0 0 0 0.

(** [ChannelStats.record]: the whole body runs under [self.lock]. *)
Definition record (outcome : string) (test_id : Z) (s : ChannelStats)
  : ChannelStats :=
  let t := total s + 1 in
  let l := label s in
  let lo := id_min s in
  let hi := id_max s in
  if decide (outcome = "success") then
    mkChannelStats l lo hi t (success s + 1) (udp_timeouts s) (can_timeouts s)
      (data_errors s) (send_errors s) test_id
  else if decide (outcome = "udp_timeout") then
    mkChannelStats l lo hi t (success s) (udp_timeouts s + 1) (can_timeouts s)
      (data_errors s) (send_errors s) test_id
  else if decide (outcome = "can_timeout") then
    mkChannelStats l lo hi t (success s) (udp_timeouts s) (can_timeouts s + 1)
      (data_errors s) (send_errors s) test_id
  else if decide (outcome = "data_error") then
    mkChannelStats l lo hi t (success s) (udp_timeouts s) (can_timeouts s)
      (data_errors s + 1) (send_errors s) test_id
  else if decide (outcome = "send_error") then
    mkChannelStats l lo hi t (success s) (udp_timeouts s) (can_timeouts s)
      (data_errors s) (send_errors s + 1) test_id
  else
    mkChannelStats l lo hi t (success s) (udp_timeouts s) (can_timeouts s)
      (data_errors s) (send_errors s) test_id.

(** The dictionary [ChannelStats.snapshot] returns, one field per key. *)
Record Snapshot := mkSnapshot {
  snap_label : string;
  snap_total : Z;
  snap_success : Z;
  snap_udp_timeouts : Z;
  snap_can_timeouts : Z;
  snap_data_errors : Z;
  snap_send_errors : Z;
  snap_last_id : Z;
  snap_id_min : Z;
  snap_id_max : Z
}.

(** [ChannelStats.snapshot] *)
Definition snapshot (s : ChannelStats) : Snapshot :=
  mkSnapshot (label s) (total s) (success s) (udp_timeouts s)
    (can_timeouts s) (data_errors s) (send_errors s) (last_id s)
    (id_min s) (id_max s).

(** The outcomes a tester ever records. *)
Definition outcomes : list string :=
  ["success"; "udp_timeout"; "can_timeout"; "data_error"; "send_error"].

(** A sequence of [record] calls, oldest first. *)
Definition record_all (calls : list (string * Z)) (s : ChannelStats)
  : ChannelStats :=
  foldl (fun acc c => record c.1 c.2 acc) s calls.

(** Counters add up. *)
Definition counters_add_up (s : ChannelStats) : Prop :=
  total s = success s + udp_timeouts s + can_timeouts s
            + data_errors s + send_errors s.

Definition snapshot_adds_up (d : Snapshot) : Prop :=
  snap_total d = snap_success d + snap_udp_timeouts d + snap_can_timeouts d
                 + snap_data_errors d + snap_send_errors d.

(** ** Results of calls into the outside world *)

(** What a Python call does, seen from its caller: it returns, it raises,
    or (for a loop run against a finite script) it is still running when
    the script ends. *)
Inductive py_result (A : Type) : Type :=
  | Return (a : A)
  | Raise (exc : string)
  | Pending.
Arguments Return {A} a.
Arguments Raise {A} exc.
Arguments Pending {A}.

(** [sock.recvfrom(bufsize)] on a socket with a timeout. *)
Inductive recv_result :=
  | Received (datagram : list byte)
  | TimedOut
  | RecvOSError.

(** [sock.send] / [sock.sendto]. *)
Inductive send_result := Sent | SendOSError.

(** ** Port multiplexer: the mailbox *)

(** A mailbox entry, the tuple [(packet, info, can_id, payload)]. *)
Definition item : Type := list byte * Z * Z * list byte.

Definition item_packet (it : item) : list byte := it.1.1.1.
Definition item_info (it : item) : Z := it.1.1.2.
Definition item_can_id (it : item) : Z := it.1.2.
Definition item_payload (it : item) : list byte := it.2.

Section Mailbox.

(** [defaultdict(deque)] holds any kind of entry; neither the append nor
    the wait looks inside one. *)
Context {A : Type}.

(** [self._mailbox[can_id].append(x)]: a [defaultdict] binds a missing
    key to a fresh empty deque before the append. *)
Definition mailbox_append (can_id : Z) (x : A) (mb : gmap Z (list A))
  : gmap Z (list A) :=
  <[can_id := default [] (mb !! can_id) ++ [x]]> mb.

(** One turn of the [while True] loop of [wait_for_packet], which runs
    with the condition's lock held. *)
Inductive wait_turn :=
  | Deliver (x : A)           (* [return item] *)
  | GiveUp                    (* [return None] *)
  | Block (remaining : Z).    (* [self._cond.wait(remaining)] *)

(** [queue = self._mailbox.get(can_id)] does not create the key;
    [if queue:] fails on a missing key and on an empty deque alike;
    [popleft] shortens the deque the dictionary holds. [now] and [stop]
    are what [time.time()] and [self.stop_event.is_set()] give when
    they are evaluated. *)
Definition wait_for_packet_turn (can_id deadline now : Z) (stop : bool)
  (mb : gmap Z (list A)) : wait_turn * gmap Z (list A) :=
  match mb !! can_id with
  | Some (x :: queue) =>
      (Deliver x,
       match queue with
       | [] => delete can_id mb
       | _ :: _ => <[can_id := queue]> mb
       end)
  | _ =>
      let remaining := deadline - now in
      if bool_decide (remaining <= 0) || stop
      then (GiveUp, mb)
      else (Block remaining, mb)
  end.

(** What the threads sharing one port do to its mailbox, one critical
    section each. *)
Inductive mailbox_op :=
  | Enq (can_id : Z) (x : A)
  | Att (can_id deadline now : Z) (stop : bool).

(** A step gives the new mailbox and, when a waiter was served, the
    identifier it asked for and the entry it got. *)
Definition mailbox_step (op : mailbox_op) (mb : gmap Z (list A))
  : gmap Z (list A) * option (Z * A) :=
  match op with
  | Enq k x => (mailbox_append k x mb, None)
  | Att k deadline now stop =>
      match wait_for_packet_turn k deadline now stop mb with
      | (Deliver x, mb') => (mb', Some (k, x))
      | (_, mb') => (mb', None)
      end
  end.

(** A schedule of critical sections, with the deliveries in order. *)
Fixpoint mailbox_run (ops : list mailbox_op) (mb : gmap Z (list A))
  : gmap Z (list A) * list (Z * A) :=
  match ops with
  | [] => (mb, [])
  | op :: rest =>
      let '(mb1, d) := mailbox_step op mb in
      let '(mb2, ds) := mailbox_run rest mb1 in
      (mb2, from_option (fun x => [x]) [] d ++ ds)
  end.

(** The entries given to [Enq], in order. *)
Definition enqueued (ops : list mailbox_op) : list (Z * A) :=
  omap (fun op => match op with
                  | Enq k x => Some (k, x)
                  | Att _ _ _ _ => None
                  end) ops.

(** Every entry waiting in some queue, with the key of its queue. *)
Definition mailbox_entries (mb : gmap Z (list A)) : list (Z * A) :=
  kq ← map_to_list mb; pair kq.1 <$> kq.2.

(** No key is bound to an empty queue. *)
Definition mailbox_pruned (mb : gmap Z (list A)) : Prop :=
  forall k q, mb !! k = Some q -> q <> [].

End Mailbox.

Arguments wait_turn : clear implicits.
Arguments mailbox_op : clear implicits.

(** ** Port multiplexer: the receive loop *)

(** What the body of [_rx_loop] does with the outcome of
    [self.sock.recvfrom(64)]. *)
Inductive rx_action :=
  | RxContinue
  | RxBreak
  | RxAppend (can_id : Z) (it : item)
  | RxRaise (exc : string).

Definition _rx_loop_body (r : recv_result) : rx_action :=
  match r with
  | TimedOut => RxContinue
  | RecvOSError => RxBreak
  | Received datagram =>
      let packet := take 64 datagram in
      if (length packet <? UDP_STRUCT_size)%nat then RxContinue
      else
        match UDP_STRUCT_unpack (take UDP_STRUCT_size packet) with
        | Some (info, can_id, payload) =>
            RxAppend can_id (packet, info, can_id, payload)
        | None => RxRaise "struct.error"
        end
  end.

(** One pass of [_rx_loop]: the loop test, then the body. *)
Record rx_pass := mkRxPass {
  rx_running : bool;       (* [self._running] *)
  rx_stop : bool;          (* [self.stop_event.is_set()] *)
  rx_recv : recv_result
}.

(** [_rx_loop] against a script of passes: the appends it makes, in
    order, and how it ends. *)
Fixpoint _rx_loop (script : list rx_pass) : list (Z * item) * py_result unit :=
  match script with
  | [] => ([], Pending)
  | p :: rest =>
      if rx_running p && negb (rx_stop p) then
        match _rx_loop_body (rx_recv p) with
        | RxContinue => _rx_loop rest
        | RxBreak => ([], Return ())
        | RxRaise e => ([], Raise e)
        | RxAppend k it =>
            let '(es, r) := _rx_loop rest in ((k, it) :: es, r)
        end
      else ([], Return ())
  end.

(** The critical sections of one port: a datagram handled by the receive
    thread, or one turn of some tester's wait. *)
Inductive port_op :=
  | OpRecv (r : recv_result)
  | OpWait (can_id deadline now : Z) (stop : bool).

Definition port_compile (op : port_op) : option (mailbox_op item) :=
  match op with
  | OpRecv r =>
      match _rx_loop_body r with
      | RxAppend k it => Some (Enq k it)
      | _ => None
      end
  | OpWait k deadline now stop => Some (Att k deadline now stop)
  end.

Definition port_run (ops : list port_op) (mb : gmap Z (list item))
  : gmap Z (list item) * list (Z * item) :=
  mailbox_run (omap port_compile ops) mb.

(** Arrival numbers: the [n]-th append of a schedule carries [n] next to
    its entry. The number stands for the identity of the tuple object
    the receive loop creates; no code reads it. *)
Fixpoint stamp (n : nat) (ops : list (mailbox_op item))
  : list (mailbox_op (nat * item)) :=
  match ops with
  | [] => []
  | Enq k it :: rest => Enq k (n, it) :: stamp (S n) rest
  | Att k deadline now stop :: rest => Att k deadline now stop :: stamp n rest
  end.

Definition unstamp_op (op : mailbox_op (nat * item)) : mailbox_op item :=
  match op with
  | Enq k x => Enq k x.2
  | Att k deadline now stop => Att k deadline now stop
  end.

Definition unstamp_mailbox (mb : gmap Z (list (nat * item)))
  : gmap Z (list item) :=
  (fun q : list (nat * item) => q.*2) <$> mb.

Definition unstamp_delivery (d : Z * (nat * item)) : Z * item := (d.1, d.2.2).

(** The schedule of a port with arrival numbers, from the empty mailbox
    [PortContext.__init__] creates. *)
Definition port_run_stamped (ops : list port_op)
  : gmap Z (list (nat * item)) * list (Z * (nat * item)) :=
  mailbox_run (stamp 0 (omap port_compile ops)) ∅.

(** The appends of a schedule, each with its key and arrival number. *)
Definition port_appends_stamped (ops : list port_op) : list (Z * (nat * item)) :=
  enqueued (stamp 0 (omap port_compile ops)).

(** Every queued entry sits under the identifier it carries. *)
Definition mailbox_keyed (mb : gmap Z (list item)) : Prop :=
  forall k q it, mb !! k = Some q -> it ∈ q -> item_can_id it = k.

(** ** Port multiplexer: a whole call of [wait_for_packet] *)

(** What a waiter finds each time it holds the lock: the critical
    sections other threads ran since it last held it, the clock and the
    stop event. *)
Record wake := mkWake {
  wk_others : list port_op;
  wk_now : Z;
  wk_stop : bool
}.

Fixpoint wait_for_packet_loop (can_id deadline : Z) (script : list wake)
  (mb : gmap Z (list item)) : py_result (option item) * gmap Z (list item) :=
  match script with
  | [] => (Pending, mb)
  | w :: rest =>
      let mb1 := (port_run (wk_others w) mb).1 in
      match wait_for_packet_turn can_id deadline (wk_now w) (wk_stop w) mb1 with
      | (Deliver it, mb2) => (Return (Some it), mb2)
      | (GiveUp, mb2) => (Return None, mb2)
      | (Block _, mb2) => wait_for_packet_loop can_id deadline rest mb2
      end
  end.

(** [PortContext.wait_for_packet]; [t0] is the clock reading that sets the
    deadline. *)
Definition wait_for_packet (can_id timeout t0 : Z) (script : list wake)
  (mb : gmap Z (list item)) : py_result (option item) * gmap Z (list item) :=
  let deadline := t0 + timeout in
  wait_for_packet_loop can_id deadline script mb.

(** ** Channel tester *)

(** The tester's own fields that the cycle reads; [ChannelTester.__init__]
    derives [extended] from the upper end of the identifier range. *)
Record ChannelTester := mkChannelTester {
  tester_id_min : Z;
  tester_id_max : Z;
  extended : bool;
  stats : ChannelStats
}.

Definition ChannelTester_init (lbl : string) (lo hi : Z) : ChannelTester :=
  mkChannelTester lo hi (bool_decide (hi > 0x7FF)) (ChannelStats_init lbl lo hi).

(** One pass of the loop of [_wait_for_can_echo]. *)
Record can_poll := mkCanPoll {
  poll_stop : bool;          (* [self.stop_event.is_set()] *)
  poll_now : Z;              (* [time.time()] *)
  poll_recv : recv_result    (* [self.can_sock.recvfrom(CAN_STRUCT.size)] *)
}.

(** What the outside world feeds one cycle of [ChannelTester.run]. *)
Record cycle_env := mkCycleEnv {
  rnd_base_id : Z;                 (* [random.randint(id_min, id_max)] *)
  rnd_payload : list byte;         (* [os.urandom(8)] *)
  can_send_result : send_result;   (* [self.can_sock.send(frame)] *)
  udp_t0 : Z;
  udp_wakes : list wake;
  udp_send_result : send_result;   (* [self.port_ctx.send_to_bridge] *)
  can_t0 : Z;
  can_polls : list can_poll
}.

(** What a cycle does to the outside world (console output left out). *)
Inductive effect :=
  | CanSend (frame : list byte)
  | SendToBridge (packet : list byte)
  | Sleep (ms : Z)
  | CanClose.

Record cycle_result := mkCycleResult {
  cyc_status : py_result unit;
  cyc_stats : ChannelStats;
  cyc_mailbox : gmap Z (list item);
  cyc_effects : list effect
}.

Section Tester.

Variable native : byteorder.

(** The test [actual_id == expected_id and data[:dlc] == expected_payload[:dlc]]
    on an unpacked frame. *)
Definition echo_matches (can_id dlc : Z) (data : list byte)
  (expected_id : Z) (expected_payload : list byte) : bool :=
  let actual_id := Z.land can_id CAN_EFF_MASK in
  bool_decide (actual_id = expected_id)
  && bool_decide (take (Z.to_nat dlc) data = take (Z.to_nat dlc) expected_payload).

Fixpoint _wait_for_can_echo_loop (expected_id : Z) (expected_payload : list byte)
  (deadline : Z) (script : list can_poll) : py_result bool :=
  match script with
  | [] => Pending
  | p :: rest =>
      if poll_stop p then Return false
      else
        let remaining := deadline - poll_now p in
        if bool_decide (remaining <= 0) then Return false
        else
          match poll_recv p with
          | TimedOut =>
              _wait_for_can_echo_loop expected_id expected_payload deadline rest
          | RecvOSError => Return false
          | Received frame =>
              let frame_bytes := take CAN_STRUCT_size frame in
              match CAN_STRUCT_unpack native frame_bytes with
              | None => Raise "struct.error"
              | Some (can_id, dlc, _, data) =>
                  if echo_matches can_id dlc data expected_id expected_payload
                  then Return true
                  else _wait_for_can_echo_loop expected_id expected_payload
                         deadline rest
              end
          end
  end.

(** [ChannelTester._wait_for_can_echo]; [t0] is the clock reading that
    sets the deadline. *)
Definition _wait_for_can_echo (expected_id : Z) (expected_payload : list byte)
  (timeout t0 : Z) (script : list can_poll) : py_result bool :=
  let deadline := t0 + timeout in
  _wait_for_can_echo_loop expected_id expected_payload deadline script.

(** One pass of the [while] loop of [ChannelTester.run], from the random
    draw to the [continue] or the end of the body. Timeouts of 0.5 s and
    the pause of 0.2 s are 500 and 200 milliseconds. *)
Definition run_cycle (self : ChannelTester) (env : cycle_env)
  (mb : gmap Z (list item)) : cycle_result :=
  let base_id := rnd_base_id env in
  let payload := rnd_payload env in
  let frame_id := Z.lor base_id (if extended self then CAN_EFF_FLAG else 0) in
  match CAN_STRUCT_pack native frame_id 8 [x00; x00; x00] payload with
  | None => mkCycleResult (Raise "struct.error") (stats self) mb []
  | Some frame =>
      match can_send_result env with
      | SendOSError =>
          mkCycleResult (Return ()) (record "send_error" base_id (stats self))
            mb [Sleep 200]
      | Sent =>
          match wait_for_packet base_id 500 (udp_t0 env) (udp_wakes env) mb with
          | (Pending, mb') =>
              mkCycleResult Pending (stats self) mb' [CanSend frame]
          | (Raise e, mb') =>
              mkCycleResult (Raise e) (stats self) mb' [CanSend frame]
          | (Return None, mb') =>
              mkCycleResult (Return ())
                (record "udp_timeout" base_id (stats self)) mb' [CanSend frame]
          | (Return (Some (packet_bytes, info, packet_id, udp_payload)), mb') =>
              if bool_decide (packet_id <> base_id)
                 || bool_decide (udp_payload <> payload)
              then
                mkCycleResult (Return ())
                  (record "data_error" base_id (stats self)) mb' [CanSend frame]
              else
                match udp_send_result env with
                | SendOSError =>
                    mkCycleResult (Return ())
                      (record "send_error" base_id (stats self)) mb'
                      [CanSend frame]
                | Sent =>
                    let io := [CanSend frame; SendToBridge packet_bytes] in
                    match _wait_for_can_echo base_id payload 500 (can_t0 env)
                            (can_polls env) with
                    | Return true =>
                        mkCycleResult (Return ())
                          (record "success" base_id (stats self)) mb' io
                    | Return false =>
                        mkCycleResult (Return ())
                          (record "can_timeout" base_id (stats self)) mb' io
                    | Raise e => mkCycleResult (Raise e) (stats self) mb' io
                    | Pending => mkCycleResult Pending (stats self) mb' io
                    end
                end
          end
      end
  end.

(** The loop of [ChannelTester.run] once the CAN socket is open: each
    pass reads the stop event, then runs a cycle. The socket is closed
    when the loop ends by its test. *)
Fixpoint run_loop (self : ChannelTester)
  (script : list (bool * cycle_env)) (mb : gmap Z (list item))
  : cycle_result :=
  match script with
  | [] => mkCycleResult Pending (stats self) mb []
  | (stop, env) :: rest =>
      if stop then mkCycleResult (Return ()) (stats self) mb [CanClose]
      else
        let c := run_cycle self env mb in
        match cyc_status c with
        | Return _ =>
            let self' := mkChannelTester (tester_id_min self)
                           (tester_id_max self) (extended self) (cyc_stats c) in
            let r := run_loop self' rest (cyc_mailbox c) in
            mkCycleResult (cyc_status r) (cyc_stats r) (cyc_mailbox r)
              (cyc_effects c ++ cyc_effects r)
        | _ => c
        end
  end.

(** [ChannelTester.run]: nothing happens when [self.open()] fails. *)
Definition run (self : ChannelTester) (open_ok : bool)
  (script : list (bool * cycle_env)) (mb : gmap Z (list item))
  : cycle_result :=
  if open_ok then run_loop self script mb
  else mkCycleResult (Return ()) (stats self) mb [].

End Tester.

(** ** What counts as the echo

    The frame's identifier without its three flag bits (extended, remote,
    error: bits 31, 30 and 29) is the identifier sent, and the frame's
    data agree with the payload sent at every position below the
    frame's declared length. *)
Definition is_echo (can_id dlc : Z) (data : list byte)
  (expected_id : Z) (expected_payload : list byte) : Prop :=
  can_id mod 2 ^ 29 = expected_id
  /\ forall i : nat, (i < Z.to_nat dlc)%nat -> data !! i = expected_payload !! i.

(** A pass of the CAN poll that is neither stopped nor out of time. *)
Definition poll_live (deadline : Z) (p : can_poll) : Prop :=
  poll_stop p = false /\ poll_now p < deadline.

(** A live pass that leaves the wait polling: nothing came, or a
    well-formed frame that is not the echo. *)
Definition poll_passes (native : byteorder) (expected_id : Z)
  (expected_payload : list byte) (deadline : Z) (p : can_poll) : Prop :=
  poll_live deadline p
  /\ (poll_recv p = TimedOut
      \/ exists frame can_id dlc pad data,
           poll_recv p = Received frame
           /\ CAN_STRUCT_unpack native (take 16 frame)
              = Some (can_id, dlc, pad, data)
           /\ ~ is_echo can_id dlc data expected_id expected_payload).

(** A cycle that got as far as the wait for the CAN echo. *)
Definition reaches_can_echo (native : byteorder) (self : ChannelTester)
  (env : cycle_env) (mb : gmap Z (list item))
  (frame packet : list byte) (mb' : gmap Z (list item)) : Prop :=
  CAN_STRUCT_pack native
    (Z.lor (rnd_base_id env) (if extended self then CAN_EFF_FLAG else 0))
    8 [x00; x00; x00] (rnd_payload env) = Some frame
  /\ can_send_result env = Sent
  /\ (exists info,
        wait_for_packet (rnd_base_id env) 500 (udp_t0 env) (udp_wakes env) mb
        = (Return (Some (packet, info, rnd_base_id env, rnd_payload env)), mb'))
  /\ udp_send_result env = Sent.

(** ** Sample data *)

Definition sample_payload : list byte :=
  [x11; x22; x33; x44; x55; x66; x77; x88].

(** A well-formed datagram: info byte 8, identifier 0x123. *)
Definition sample_datagram : list byte :=
  [x08; x00; x00; x01; x23] ++ sample_payload.

Definition sample_item : item := (sample_datagram, 8, 0x123, sample_payload).

(** The same datagram with one byte too many, and with one too few. *)
Definition sample_long : list byte := sample_datagram ++ [xff].
Definition sample_short : list byte := take 12 sample_datagram.

Definition sample_tester : ChannelTester :=
  ChannelTester_init "vcan0@UDP5555#ch0" 0x100 0x1FF.

(** On a little-endian host: identifier 0x123 with the extended flag,
    declared length 8, the sample payload. *)
Definition sample_echo_frame : list byte :=
  [x23; x01; x00; x80; x08; x00; x00; x00;
   x11; x22; x33; x44; x55; x66; x77; x88].

(** Identifier 0x123, declared length 0, data unlike the sample payload. *)
Definition sample_empty_frame : list byte :=
  [x23; x01; x00; x00; x00; x00; x00; x00;
   xff; xff; xff; xff; xff; xff; xff; xff].

(** Identifier 0x124, declared length 8, the sample payload. *)
Definition sample_other_frame : list byte :=
  [x24; x01; x00; x00; x08; x00; x00; x00;
   x11; x22; x33; x44; x55; x66; x77; x88].

(** A cycle on identifier 0x123 in which the bridge forwards the frame
    and echoes it back. *)
Definition sample_env : cycle_env :=
  mkCycleEnv 0x123 sample_payload Sent
    0 [mkWake [OpRecv (Received sample_datagram)] 10 false] Sent
    20 [mkCanPoll false 25 TimedOut;
        mkCanPoll false 30 (Received sample_other_frame);
        mkCanPoll false 40 (Received sample_echo_frame)].

(** ** Notions used to describe whole runs *)

(** The queue of an identifier; a missing key and an empty deque are the
    same to [wait_for_packet]. *)
Definition queue_of {A : Type} (X : Z) (mb : gmap Z (list A)) : list A :=
  default [] (mb !! X).

(** The entries of a log that belong to one identifier, in order. *)
Definition for_id {A : Type} (X : Z) (log : list (Z * A)) : list A :=
  omap (fun e => if decide (e.1 = X) then Some e.2 else None) log.

(** Does a critical section touch the queue of [X]? *)
Definition port_concerns (X : Z) (op : port_op) : bool :=
  match port_compile op with
  | Some (Enq k _) => bool_decide (k = X)
  | Some (Att k _ _ _) => bool_decide (k = X)
  | None => false
  end.

(** The appends of a schedule, each with its key, in order. *)
Definition port_appends (ops : list port_op) : list (Z * item) :=
  enqueued (omap port_compile ops).

(** The append, if any, that a critical section makes. *)
Definition port_append_of (op : port_op) : option (Z * item) :=
  match op with
  | OpRecv r =>
      match _rx_loop_body r with
      | RxAppend k it => Some (k, it)
      | _ => None
      end
  | OpWait _ _ _ _ => None
  end.

(** Every queued entry has a property that may depend on its key. *)
Definition mailbox_all {A : Type} (P : Z -> A -> Prop) (mb : gmap Z (list A))
  : Prop :=
  forall k q x, mb !! k = Some q -> x ∈ q -> P k x.

(** An entry as the receive loop makes it: between 13 and 64 bytes of
    datagram, whose first 13 bytes unpack to the other three fields. *)
Definition item_wf (k : Z) (it : item) : Prop :=
  (13 <= length (item_packet it) <= 64)%nat
  /\ UDP_STRUCT_unpack (take 13 (item_packet it))
     = Some (item_info it, item_can_id it, item_payload it)
  /\ item_can_id it = k
  /\ 0 <= item_can_id it < 2 ^ 32
  /\ 0 <= item_info it < 256
  /\ length (item_payload it) = 8%nat.

(** ** The socket timeouts of the CAN poll

    [_wait_for_can_echo] calls [self.can_sock.settimeout(remaining)]
    before each [recvfrom]. These are the values it sets, in order, on
    the same script: the loop of [_wait_for_can_echo_loop] with the
    timeout noted at every pass that reaches the socket. *)
Fixpoint _wait_for_can_echo_settimeouts (native : byteorder)
  (expected_id : Z) (expected_payload : list byte)
  (deadline : Z) (script : list can_poll) : list Z :=
  match script with
  | [] => []
  | p :: rest =>
      if poll_stop p then []
      else
        let remaining := deadline - poll_now p in
        if bool_decide (remaining <= 0) then []
        else
          remaining ::
          match poll_recv p with
          | TimedOut =>
              _wait_for_can_echo_settimeouts native expected_id
                expected_payload deadline rest
          | RecvOSError => []
          | Received frame =>
              let frame_bytes := take CAN_STRUCT_size frame in
              match CAN_STRUCT_unpack native frame_bytes with
              | None => []
              | Some (can_id, dlc, _, data) =>
                  if echo_matches can_id dlc data expected_id expected_payload
                  then []
                  else _wait_for_can_echo_settimeouts native expected_id
                         expected_payload deadline rest
              end
          end
  end.

(** ** The echo as the specification words it

    Only the extended flag (bit 31) is taken off the identifier, and the
    frame's data, cut to its declared length, are compared with the
    whole payload that was sent. *)
Definition echo_as_specified (can_id dlc : Z) (data : list byte)
  (expected_id : Z) (expected_payload : list byte) : Prop :=
  Z.ldiff can_id CAN_EFF_FLAG = expected_id
  /\ take (Z.to_nat dlc) data = expected_payload.

(** Identifier 0x123, declared length 3, the first three bytes of the
    sample payload followed by zeros. *)
Definition sample_dlc3_frame : list byte :=
  [x23; x01; x00; x00; x03; x00; x00; x00;
   x11; x22; x33; x00; x00; x00; x00; x00].

(** Identifier 0x123 with the remote-request flag (bit 30), declared
    length 8, the sample payload. *)
Definition sample_rtr_frame : list byte :=
  [x23; x01; x00; x40; x08; x00; x00; x00;
   x11; x22; x33; x44; x55; x66; x77; x88].

(** A datagram of 70 bytes: the sample datagram and 57 bytes more. *)
Definition sample_huge : list byte := sample_datagram ++ replicate 57 xff.

(** The branches of [run_cycle], one goal each. *)
Ltac cycle_cases native self env mb :=
  unfold run_cycle;
  destruct (CAN_STRUCT_pack native
              (Z.lor (rnd_base_id env)
                 (if extended self then CAN_EFF_FLAG else 0))
              8 [x00; x00; x00] (rnd_payload env)) as [?frame|] eqn:?Hpack;
  [destruct (can_send_result env) eqn:?Hcan;
   [destruct (wait_for_packet (rnd_base_id env) 500 (udp_t0 env)
                (udp_wakes env) mb)
      as [[[[[[?packet ?info] ?pid] ?pl]|]|?e|] ?mb'] eqn:?Hwait;
    [destruct (bool_decide (pid <> rnd_base_id env)
               || bool_decide (pl <> rnd_payload env)) eqn:?Hcmp;
     [|destruct (udp_send_result env) eqn:?Hudp;
       [destruct (_wait_for_can_echo native (rnd_base_id env)
                    (rnd_payload env) 500 (can_t0 env) (can_polls env))
          as [[|]|?e|] eqn:?Hecho|]]
    | | |]
   |]
  |].

(** * Properties *)

(** ** Channel statistics *)

Lemma outcomes_cases (o : string) :
  o ∈ outcomes ->
  o = "success" \/ o = "udp_timeout" \/ o = "can_timeout"
  \/ o = "data_error" \/ o = "send_error".
Proof.
  unfold outcomes. rewrite !elem_of_cons, elem_of_nil. tauto.
Qed.

Lemma ChannelStats_init_adds_up lbl lo hi :
  counters_add_up (ChannelStats_init lbl lo hi).
Proof. reflexivity. Qed.

Lemma record_total o i s : total (record o i s) = total s + 1.
Proof. unfold record. repeat case_decide; reflexivity. Qed.

Lemma record_last_id o i s : last_id (record o i s) = i.
Proof. unfold record. repeat case_decide; reflexivity. Qed.

Lemma record_adds_up o i s :
  o ∈ outcomes -> counters_add_up s -> counters_add_up (record o i s).
Proof.
  intros Ho Hs. apply outcomes_cases in Ho.
  unfold counters_add_up, record in *.
  repeat case_decide; simpl; try lia.
  destruct Ho as [?|[?|[?|[?|?]]]]; contradiction.
Qed.

Lemma snapshot_reflects s :
  (counters_add_up s <-> snapshot_adds_up (snapshot s))
  /\ snap_last_id (snapshot s) = last_id s
  /\ snap_total (snapshot s) = total s.
Proof. unfold counters_add_up, snapshot_adds_up, snapshot; simpl. tauto. Qed.

Lemma record_all_snoc calls c s :
  record_all (calls ++ [c]) s = record c.1 c.2 (record_all calls s).
Proof. unfold record_all. rewrite foldl_app. reflexivity. Qed.

(** C9. Start from statistics whose counters add up (those of a new
    channel do) and make any sequence of [record] calls with outcomes
    among success, udp_timeout, can_timeout, data_error and send_error:
    afterwards [total] is again the sum of the five counters and has
    grown by the number of calls, [last_id] is the identifier of the
    latest call, and a snapshot shows the same. *)
Theorem record_keeps_counters_consistent
  (s0 : ChannelStats) (calls : list (string * Z)) :
  counters_add_up s0 ->
  Forall (fun c => c.1 ∈ outcomes) calls ->
  let s := record_all calls s0 in
  counters_add_up s
  /\ total s = total s0 + Z.of_nat (length calls)
  /\ last_id s = default (last_id s0) (last calls.*2)
  /\ snapshot_adds_up (snapshot s)
  /\ snap_last_id (snapshot s) = default (last_id s0) (last calls.*2).
Proof.
  intros H0 Hc. cbv zeta.
  assert (counters_add_up (record_all calls s0)
          /\ total (record_all calls s0) = total s0 + Z.of_nat (length calls)
          /\ last_id (record_all calls s0)
             = default (last_id s0) (last calls.*2)) as (Ha & Ht & Hl).
  { induction calls as [|c calls IH] using rev_ind.
    - simpl. repeat split; [assumption | lia].
    - apply Forall_app in Hc as [Hc Hlast].
      apply Forall_inv in Hlast.
      destruct (IH Hc) as (IHa & IHt & IHl).
      rewrite record_all_snoc, record_total, record_last_id.
      rewrite fmap_app, length_app. simpl. rewrite last_snoc. simpl.
      repeat split; [by apply record_adds_up | lia]. }
  destruct (snapshot_reflects (record_all calls s0)) as (Hs & Hsl & _).
  rewrite Hsl. split_and!; try assumption; by apply Hs.
Qed.

(** [record] does not check its outcome: a string outside the five
    counts in [total] and in no counter. *)
Example record_unknown_outcome :
  let s := record "timeout" 0x100 (ChannelStats_init "vcan0" 0x100 0x1FF) in
  total s = 1
  /\ success s + udp_timeouts s + can_timeouts s + data_errors s
     + send_errors s = 0.
Proof. split; reflexivity. Qed.

Lemma record_keeps_counters_consistent_witness :
  let s := record_all
             [("success", 0x100); ("udp_timeout", 0x1A0); ("data_error", 0x101)]
             (ChannelStats_init "vcan0@UDP5555#ch0" 0x100 0x1FF) in
  counters_add_up s
  /\ total s = 0 + 3
  /\ last_id s = 0x101
  /\ snapshot_adds_up (snapshot s)
  /\ snap_last_id (snapshot s) = 0x101.
Proof.
  apply (record_keeps_counters_consistent
           (ChannelStats_init "vcan0@UDP5555#ch0" 0x100 0x1FF)
           [("success", 0x100); ("udp_timeout", 0x1A0); ("data_error", 0x101)]).
  - reflexivity.
  - repeat constructor; vm_compute; set_solver.
Defined.

(** ** The mailbox: no key is left with an empty queue *)

Section MailboxPruned.

Context {A : Type}.
Implicit Types (mb : gmap Z (list A)) (ops : list (mailbox_op A)).

Lemma mailbox_pruned_empty : mailbox_pruned (∅ : gmap Z (list A)).
Proof. intros k q Hk. by rewrite lookup_empty in Hk. Qed.

Lemma mailbox_append_pruned k x mb :
  mailbox_pruned mb -> mailbox_pruned (mailbox_append k x mb).
Proof.
  intros Hmb k' q. unfold mailbox_append.
  destruct (decide (k = k')) as [<-|Hne].
  - rewrite lookup_insert_eq. intros [= <-].
    destruct (default [] (mb !! k)); discriminate.
  - rewrite lookup_insert_ne by done. apply Hmb.
Qed.

Lemma wait_for_packet_turn_pruned k deadline now stop mb :
  mailbox_pruned mb ->
  mailbox_pruned (wait_for_packet_turn k deadline now stop mb).2.
Proof.
  intros Hmb. unfold wait_for_packet_turn.
  destruct (mb !! k) as [[|x [|y queue]]|] eqn:Hk; simpl;
    try (destruct (bool_decide _ || stop); exact Hmb).
  - intros k' q. destruct (decide (k = k')) as [<-|Hne].
    + by rewrite lookup_delete_eq.
    + rewrite lookup_delete_ne by done. apply Hmb.
  - intros k' q. destruct (decide (k = k')) as [<-|Hne].
    + rewrite lookup_insert_eq. by intros [= <-].
    + rewrite lookup_insert_ne by done. apply Hmb.
Qed.

Lemma mailbox_step_pruned op mb :
  mailbox_pruned mb -> mailbox_pruned (mailbox_step op mb).1.
Proof.
  intros Hmb. destruct op as [k x|k deadline now stop]; simpl.
  - by apply mailbox_append_pruned.
  - pose proof (wait_for_packet_turn_pruned k deadline now stop mb Hmb) as H.
    destruct (wait_for_packet_turn k deadline now stop mb) as [[x| |r] mb'];
      exact H.
Qed.

Lemma mailbox_run_pruned ops mb :
  mailbox_pruned mb -> mailbox_pruned (mailbox_run ops mb).1.
Proof.
  revert mb. induction ops as [|op ops IH]; intros mb Hmb; simpl; [done|].
  pose proof (mailbox_step_pruned op mb Hmb) as H1.
  destruct (mailbox_step op mb) as [mb1 d]. simpl in H1.
  specialize (IH mb1 H1).
  destruct (mailbox_run ops mb1) as [mb2 ds]. exact IH.
Qed.

End MailboxPruned.

Lemma port_run_pruned ops (mb : gmap Z (list item)) :
  mailbox_pruned mb -> mailbox_pruned (port_run ops mb).1.
Proof. apply mailbox_run_pruned. Qed.

Lemma wait_for_packet_pruned k timeout t0 script (mb : gmap Z (list item)) :
  mailbox_pruned mb ->
  mailbox_pruned (wait_for_packet k timeout t0 script mb).2.
Proof.
  unfold wait_for_packet. generalize (t0 + timeout) as deadline. intros deadline.
  revert mb. induction script as [|w script IH]; intros mb Hmb; simpl; [done|].
  pose proof (wait_for_packet_turn_pruned k deadline (wk_now w) (wk_stop w) _
                (port_run_pruned (wk_others w) mb Hmb)) as H.
  destruct (wait_for_packet_turn k deadline (wk_now w) (wk_stop w) _)
    as [[x| |r] mb']; simpl in *; auto.
Qed.

(** C8. Starting from the empty mailbox of a new port, after any number
    of critical sections of the receive loop and of waiters, in any
    order, every identifier present in the mailbox is bound to a
    non-empty queue. (A prefix of a schedule is a schedule, so this
    holds after each operation.) *)
Theorem mailbox_keys_have_entries (ops : list port_op) :
  mailbox_pruned (port_run ops ∅).1.
Proof. apply port_run_pruned, mailbox_pruned_empty. Qed.

(** ** The mailbox: entries are conserved *)

Section MailboxConservation.

Context {A : Type}.
Implicit Types (mb : gmap Z (list A)) (ops : list (mailbox_op A)).

Lemma mailbox_entries_insert k q mb :
  mailbox_entries (<[k := q]> mb)
  ≡ₚ (pair k <$> q) ++ mailbox_entries (delete k mb).
Proof.
  unfold mailbox_entries. rewrite <- insert_delete_eq.
  rewrite map_to_list_insert by apply lookup_delete_eq.
  reflexivity.
Qed.

Lemma mailbox_entries_lookup k q mb :
  mb !! k = Some q ->
  mailbox_entries mb ≡ₚ (pair k <$> q) ++ mailbox_entries (delete k mb).
Proof.
  intros Hk. rewrite <- (insert_id mb k q Hk) at 1.
  apply mailbox_entries_insert.
Qed.

Lemma mailbox_append_entries k x mb :
  mailbox_entries (mailbox_append k x mb) ≡ₚ mailbox_entries mb ++ [(k, x)].
Proof.
  unfold mailbox_append. rewrite mailbox_entries_insert.
  destruct (mb !! k) as [q|] eqn:Hk; simpl.
  - rewrite (mailbox_entries_lookup k q mb Hk), fmap_app. simpl.
    rewrite <- !(assoc (++)). apply Permutation_app_head, Permutation_app_comm.
  - rewrite delete_id by done. apply Permutation_cons_append.
Qed.

Lemma wait_for_packet_turn_entries k deadline now stop mb :
  match wait_for_packet_turn k deadline now stop mb with
  | (Deliver x, mb') => mailbox_entries mb ≡ₚ (k, x) :: mailbox_entries mb'
  | (_, mb') => mb' = mb
  end.
Proof.
  unfold wait_for_packet_turn.
  destruct (mb !! k) as [[|x [|y queue]]|] eqn:Hk;
    try (destruct (bool_decide _ || stop); reflexivity).
  - by rewrite (mailbox_entries_lookup k _ mb Hk).
  - rewrite (mailbox_entries_lookup k _ mb Hk), mailbox_entries_insert.
    reflexivity.
Qed.

Lemma mailbox_step_entries op mb :
  from_option (fun d => [d]) [] (mailbox_step op mb).2
    ++ mailbox_entries (mailbox_step op mb).1
  ≡ₚ mailbox_entries mb ++ enqueued [op].
Proof.
  destruct op as [k x|k deadline now stop]; simpl.
  - apply mailbox_append_entries.
  - pose proof (wait_for_packet_turn_entries k deadline now stop mb) as H.
    destruct (wait_for_packet_turn k deadline now stop mb) as [[x| |r] mb'];
      simpl; rewrite app_nil_r; [by rewrite H | by subst..].
Qed.

Lemma enqueued_cons (op : mailbox_op A) ops :
  enqueued (op :: ops) = enqueued [op] ++ enqueued ops.
Proof. by destruct op. Qed.

(** Whatever the schedule, the entries handed out together with those
    still queued are those that were queued at the start together with
    those appended since. *)
Lemma mailbox_run_entries ops mb :
  (mailbox_run ops mb).2 ++ mailbox_entries (mailbox_run ops mb).1
  ≡ₚ mailbox_entries mb ++ enqueued ops.
Proof.
  revert mb. induction ops as [|op ops IH]; intros mb.
  - simpl. by rewrite app_nil_r.
  - rewrite enqueued_cons. cbn [mailbox_run].
    pose proof (mailbox_step_entries op mb) as H1.
    destruct (mailbox_step op mb) as [mb1 d]. cbn [fst snd] in H1.
    specialize (IH mb1).
    destruct (mailbox_run ops mb1) as [mb2 ds]. cbn [fst snd] in *.
    rewrite (assoc (++) (mailbox_entries mb)), <- H1.
    rewrite <- !(assoc (++)). apply Permutation_app_head. exact IH.
Qed.

End MailboxConservation.

(** ** The receive loop *)

Lemma take_13_unpack (packet : list byte) :
  (13 <= length packet)%nat ->
  exists info i3 i2 i1 i0 data,
    take 5 packet = [info; i3; i2; i1; i0]
    /\ data = take 8 (drop 5 packet)
    /\ UDP_STRUCT_unpack (take UDP_STRUCT_size packet)
       = Some (byte_to_Z info, be_u32 i3 i2 i1 i0, data).
Proof.
  intros Hlen.
  do 13 (destruct packet as [|? packet]; [simpl in Hlen; lia|]).
  do 6 eexists. split_and!; reflexivity.
Qed.

(** What the body appends, and when: the datagram (cut to the 64 bytes
    asked from the socket) has at least 13 bytes, and is filed under
    the identifier read from its bytes 1 to 4. *)
Lemma _rx_loop_body_append r k it :
  _rx_loop_body r = RxAppend k it <->
  exists datagram info payload,
    r = Received datagram
    /\ (13 <= length datagram)%nat
    /\ UDP_STRUCT_unpack (take 13 datagram) = Some (info, k, payload)
    /\ it = (take 64 datagram, info, k, payload).
Proof.
  assert (forall d : list byte, take 13 (take 64 d) = take 13 d) as Htake.
  { intros d. rewrite take_take. reflexivity. }
  split.
  - destruct r as [datagram| |]; simpl; try discriminate.
    destruct (_ <? _)%nat eqn:Hlen; [discriminate|].
    apply Nat.ltb_ge in Hlen. unfold UDP_STRUCT_size in *.
    rewrite Htake.
    destruct (UDP_STRUCT_unpack (take 13 datagram)) as [[[info id] payload]|]
      eqn:Hu; [|discriminate].
    intros [= <- <-]. exists datagram, info, payload.
    rewrite length_take in Hlen. split_and!; try done. lia.
  - intros (datagram & info & payload & -> & Hlen & Hu & ->). simpl.
    unfold UDP_STRUCT_size. rewrite Htake, Hu.
    destruct (_ <? _)%nat eqn:Hlt; [|done].
    apply Nat.ltb_lt in Hlt. rewrite length_take in Hlt. lia.
Qed.

Lemma _rx_loop_body_key r k it :
  _rx_loop_body r = RxAppend k it -> item_can_id it = k.
Proof.
  rewrite _rx_loop_body_append. by intros (? & ? & ? & _ & _ & _ & ->).
Qed.

(** The unpacking in the body cannot fail: it is given exactly 13 bytes. *)
Lemma _rx_loop_body_no_raise r e : _rx_loop_body r <> RxRaise e.
Proof.
  destruct r as [datagram| |]; simpl; try discriminate.
  destruct (_ <? _)%nat eqn:Hlen; [discriminate|].
  apply Nat.ltb_ge in Hlen.
  destruct (take_13_unpack (take 64 datagram) Hlen)
    as (info & i3 & i2 & i1 & i0 & data & _ & _ & ->).
  discriminate.
Qed.

Lemma port_compile_enq op k it :
  port_compile op = Some (Enq k it) -> item_can_id it = k.
Proof.
  destruct op as [r|]; simpl; [|discriminate].
  destruct (_rx_loop_body r) eqn:Hr; try discriminate.
  intros [= <- <-]. by apply _rx_loop_body_key in Hr.
Qed.

(** ** Arrival numbers *)

Lemma stamp_unstamp n (ops : list (mailbox_op item)) :
  unstamp_op <$> stamp n ops = ops.
Proof.
  revert n. induction ops as [|[k it|k deadline now stop] ops IH]; intros n;
    simpl; by rewrite ?IH.
Qed.

Lemma stamp_enqueued_numbers n (ops : list (mailbox_op item)) :
  (enqueued (stamp n ops)).*2.*1 = seq n (length (enqueued ops)).
Proof.
  revert n. induction ops as [|[k it|k deadline now stop] ops IH]; intros n;
    simpl; [done| |apply IH].
  f_equal. apply IH.
Qed.

Lemma stamp_enqueued_erase n (ops : list (mailbox_op item)) :
  prod_map id snd <$> enqueued (stamp n ops) = enqueued ops.
Proof.
  revert n. induction ops as [|[k it|k deadline now stop] ops IH]; intros n;
    simpl; [done| |apply IH].
  f_equal. apply IH.
Qed.

Lemma NoDup_fmap_same {A B} (f : A -> B) (l : list A) x y :
  NoDup (f <$> l) -> x ∈ l -> y ∈ l -> f x = f y -> x = y.
Proof.
  induction l as [|a l IH]; simpl; intros Hnd Hx Hy Hf.
  - by apply elem_of_nil in Hx.
  - apply NoDup_cons in Hnd as [Ha Hnd].
    apply elem_of_cons in Hx as [->|Hx]; apply elem_of_cons in Hy as [->|Hy];
      [done| | |by apply IH].
    + exfalso. apply Ha. rewrite Hf. by apply list_elem_of_fmap_2.
    + exfalso. apply Ha. rewrite <- Hf. by apply list_elem_of_fmap_2.
Qed.

Lemma port_appends_stamped_NoDup ops :
  NoDup (port_appends_stamped ops).*2.*1.
Proof.
  unfold port_appends_stamped. rewrite stamp_enqueued_numbers. apply NoDup_seq.
Qed.

Lemma port_appends_stamped_key ops k n it :
  (k, (n, it)) ∈ port_appends_stamped ops -> item_can_id it = k.
Proof.
  unfold port_appends_stamped. intros Hin.
  assert ((k, it) ∈ enqueued (omap port_compile ops)) as Hin'.
  { rewrite <- (stamp_enqueued_erase 0).
    by apply (list_elem_of_fmap_2 (prod_map id snd)) in Hin. }
  unfold enqueued in Hin'. apply list_elem_of_omap in Hin' as (mop & Hmop & Hk).
  destruct mop as [k' it'|]; [|discriminate]. injection Hk as -> ->.
  apply list_elem_of_omap in Hmop as (op & _ & Hop).
  by apply port_compile_enq in Hop.
Qed.

(** The deliveries of a schedule and what is still queued are, together,
    the appends of the schedule. *)
Lemma port_run_stamped_entries ops :
  (port_run_stamped ops).2 ++ mailbox_entries (port_run_stamped ops).1
  ≡ₚ port_appends_stamped ops.
Proof.
  unfold port_run_stamped, port_appends_stamped.
  rewrite mailbox_run_entries. unfold mailbox_entries.
  by rewrite map_to_list_empty.
Qed.

(** Arrival numbers change nothing: forgetting them turns a numbered
    schedule into the plain one, step by step. *)
Lemma mailbox_step_unstamp op (mb : gmap Z (list (nat * item))) :
  mailbox_step (unstamp_op op) (unstamp_mailbox mb)
  = (unstamp_mailbox (mailbox_step op mb).1,
     unstamp_delivery <$> (mailbox_step op mb).2).
Proof.
  unfold unstamp_mailbox.
  destruct op as [k x|k deadline now stop]; simpl.
  - unfold mailbox_append. rewrite lookup_fmap, fmap_insert.
    destruct (mb !! k); simpl; by rewrite ?fmap_app.
  - unfold wait_for_packet_turn. rewrite lookup_fmap.
    destruct (mb !! k) as [[|x [|y queue]]|]; simpl;
      try (by destruct (bool_decide _ || stop)).
    + by rewrite fmap_delete.
    + by rewrite fmap_insert.
Qed.

Lemma mailbox_run_unstamp ops (mb : gmap Z (list (nat * item))) :
  mailbox_run (unstamp_op <$> ops) (unstamp_mailbox mb)
  = (unstamp_mailbox (mailbox_run ops mb).1,
     unstamp_delivery <$> (mailbox_run ops mb).2).
Proof.
  revert mb. induction ops as [|op ops IH]; intros mb; [done|].
  rewrite fmap_cons. cbn [mailbox_run].
  rewrite mailbox_step_unstamp.
  destruct (mailbox_step op mb) as [mb1 d]. cbn [fst snd].
  rewrite IH. destruct (mailbox_run ops mb1) as [mb2 ds]. cbn [fst snd].
  f_equal. rewrite fmap_app. by destruct d.
Qed.

Lemma port_run_stamped_erase ops :
  port_run ops ∅
  = (unstamp_mailbox (port_run_stamped ops).1,
     unstamp_delivery <$> (port_run_stamped ops).2).
Proof.
  unfold port_run, port_run_stamped.
  rewrite <- mailbox_run_unstamp, stamp_unstamp.
  unfold unstamp_mailbox. by rewrite fmap_empty.
Qed.

(** ** Delivery *)

(** C2. In any schedule of a port, started on its empty mailbox, a
    datagram that a wait for identifier [X] returns was appended to the
    mailbox under [X]: its entry carries [X] as its identifier, the
    append with its arrival number used the key [X], and no append
    under another key has that arrival number. *)
Theorem wait_returns_own_identifier
  (ops : list port_op) (X : Z) (n : nat) (it : item) :
  (X, (n, it)) ∈ (port_run_stamped ops).2 ->
  item_can_id it = X
  /\ (X, (n, it)) ∈ port_appends_stamped ops
  /\ forall k it', (k, (n, it')) ∈ port_appends_stamped ops ->
                   k = X /\ it' = it.
Proof.
  intros Hd.
  assert ((X, (n, it)) ∈ port_appends_stamped ops) as Happ.
  { rewrite <- port_run_stamped_entries. apply elem_of_app. by left. }
  split_and!; [by apply port_appends_stamped_key in Happ | done |].
  intros k it' Hin.
  assert (NoDup ((fst ∘ snd) <$> port_appends_stamped ops)) as Hnd.
  { rewrite list_fmap_compose. apply port_appends_stamped_NoDup. }
  pose proof (NoDup_fmap_same _ _ (k, (n, it')) (X, (n, it)) Hnd Hin Happ
                eq_refl) as Heq.
  by injection Heq as -> ->.
Qed.

Lemma wait_returns_own_identifier_witness :
  (0x123, (0%nat, sample_item))
    ∈ (port_run_stamped [OpRecv (Received sample_datagram);
                         OpWait 0x123 500 0 false]).2
  /\ item_can_id sample_item = 0x123
  /\ (0x123, (0%nat, sample_item))
       ∈ port_appends_stamped [OpRecv (Received sample_datagram);
                               OpWait 0x123 500 0 false]
  /\ forall k it',
       (k, (0%nat, it'))
         ∈ port_appends_stamped [OpRecv (Received sample_datagram);
                                 OpWait 0x123 500 0 false] ->
       k = 0x123 /\ it' = sample_item.
Proof.
  assert ((0x123, (0%nat, sample_item))
            ∈ (port_run_stamped [OpRecv (Received sample_datagram);
                                 OpWait 0x123 500 0 false]).2) as H.
  { vm_compute. constructor. }
  split; [exact H|].
  exact (wait_returns_own_identifier _ _ _ _ H).
Defined.

(** The same without arrival numbers. *)
Lemma port_run_delivers_own_identifier ops X it :
  (X, it) ∈ (port_run ops ∅).2 -> item_can_id it = X.
Proof.
  rewrite port_run_stamped_erase. cbn [snd].
  intros ([X' [n it']] & [= -> ->] & Hin)%list_elem_of_fmap_1.
  apply (port_appends_stamped_key ops _ n).
  rewrite <- port_run_stamped_entries. apply elem_of_app. by left.
Qed.

(** Whole calls: on a mailbox filled by the receive loop, a call of
    [wait_for_packet] that returns an entry returns one that carries the
    identifier asked for. *)
Lemma mailbox_keyed_empty : mailbox_keyed ∅.
Proof. intros k q it Hk. by rewrite lookup_empty in Hk. Qed.

Lemma mailbox_append_keyed k it mb :
  item_can_id it = k -> mailbox_keyed mb -> mailbox_keyed (mailbox_append k it mb).
Proof.
  intros Hit Hmb k' q it'. unfold mailbox_append.
  destruct (decide (k = k')) as [<-|Hne].
  - rewrite lookup_insert_eq. intros [= <-] Hin.
    apply elem_of_app in Hin as [Hin|Hin].
    + destruct (mb !! k) as [q|] eqn:Hk; simpl in Hin.
      * by apply (Hmb k q).
      * by apply elem_of_nil in Hin.
    + by apply list_elem_of_singleton in Hin as ->.
  - rewrite lookup_insert_ne by done. apply Hmb.
Qed.

Lemma wait_for_packet_turn_keyed k deadline now stop (mb : gmap Z (list item)) :
  mailbox_keyed mb ->
  mailbox_keyed (wait_for_packet_turn k deadline now stop mb).2
  /\ forall it, (wait_for_packet_turn k deadline now stop mb).1 = Deliver it ->
                item_can_id it = k.
Proof.
  intros Hmb. unfold wait_for_packet_turn.
  destruct (mb !! k) as [[|x [|y queue]]|] eqn:Hk; simpl;
    try (destruct (bool_decide _ || stop); by split).
  - split.
    + intros k' q it. destruct (decide (k = k')) as [<-|Hne].
      * by rewrite lookup_delete_eq.
      * rewrite lookup_delete_ne by done. apply Hmb.
    + intros it [= <-]. apply (Hmb k [x]); [done | by left].
  - split.
    + intros k' q it. destruct (decide (k = k')) as [<-|Hne].
      * rewrite lookup_insert_eq. intros [= <-] Hin.
        apply (Hmb k (x :: y :: queue)); [done | by right].
      * rewrite lookup_insert_ne by done. apply Hmb.
    + intros it [= <-]. apply (Hmb k (x :: y :: queue)); [done | by left].
Qed.

Lemma port_run_keyed ops mb :
  mailbox_keyed mb -> mailbox_keyed (port_run ops mb).1.
Proof.
  unfold port_run. revert mb.
  induction ops as [|op ops IH]; intros mb Hmb; [done|].
  change (omap port_compile (op :: ops))
    with (match port_compile op with
          | Some mop => mop :: omap port_compile ops
          | None => omap port_compile ops
          end).
  destruct (port_compile op) as [mop|] eqn:Hop; [|by apply IH].
  cbn [mailbox_run].
  assert (mailbox_keyed (mailbox_step mop mb).1) as H1.
  { destruct mop as [k it|k deadline now stop]; simpl.
    - apply mailbox_append_keyed; [|done]. by apply port_compile_enq in Hop.
    - pose proof (wait_for_packet_turn_keyed k deadline now stop mb Hmb) as [H _].
      by destruct (wait_for_packet_turn k deadline now stop mb) as [[x| |r] mb']. }
  destruct (mailbox_step mop mb) as [mb1 d]. specialize (IH mb1 H1).
  by destruct (mailbox_run (omap port_compile ops) mb1).
Qed.

Lemma wait_for_packet_own_identifier k timeout t0 script mb it mb' :
  mailbox_keyed mb ->
  wait_for_packet k timeout t0 script mb = (Return (Some it), mb') ->
  item_can_id it = k /\ mailbox_keyed mb'.
Proof.
  unfold wait_for_packet. generalize (t0 + timeout). intros deadline.
  revert mb. induction script as [|w script IH]; intros mb Hmb; simpl;
    [discriminate|].
  pose proof (wait_for_packet_turn_keyed k deadline (wk_now w) (wk_stop w) _
                (port_run_keyed (wk_others w) mb Hmb)) as [Hk Hd].
  destruct (wait_for_packet_turn k deadline (wk_now w) (wk_stop w) _)
    as [[x| |r] mb1]; simpl in *.
  - intros [= -> ->]. split; [by apply Hd | done].
  - discriminate.
  - by apply IH.
Qed.

(** The receive loop itself files every entry under the identifier the
    entry carries, and its unpacking never raises. *)
Lemma _rx_loop_keys script :
  Forall (fun e => item_can_id e.2 = e.1) (_rx_loop script).1
  /\ forall e, (_rx_loop script).2 <> Raise e.
Proof.
  induction script as [|p script [IHk IHr]]; simpl; [by split|].
  destruct (rx_running p && negb (rx_stop p)); [|by split].
  destruct (_rx_loop_body (rx_recv p)) as [| |k it|e] eqn:Hbody;
    [by split | by split | | by apply _rx_loop_body_no_raise in Hbody].
  destruct (_rx_loop script) as [es r]. simpl in *.
  split; [|done]. constructor; [|done]. by apply _rx_loop_body_key in Hbody.
Qed.

(** C3. In any schedule of a port, started on its empty mailbox, the
    arrival numbers of the datagrams returned to waiters are pairwise
    different: no appended datagram is returned by two waits. Each turn
    of a wait is one step of the schedule, as the lock that is held
    from the lookup to the removal makes it. *)
Theorem no_datagram_delivered_twice (ops : list port_op) :
  NoDup (port_run_stamped ops).2.*2.*1.
Proof.
  pose proof (port_appends_stamped_NoDup ops) as Hnd.
  rewrite <- port_run_stamped_entries in Hnd.
  rewrite !fmap_app in Hnd.
  by apply NoDup_app in Hnd as [? _].
Qed.

(** ** Waiting and the stop event *)

(** A turn blocks only while the stop event is clear and time is left,
    and then for no longer than the time left. *)
Lemma wait_for_packet_turn_block {A} k deadline now stop
    (mb mb' : gmap Z (list A)) remaining :
  wait_for_packet_turn k deadline now stop mb = (Block remaining, mb') ->
  stop = false /\ remaining = deadline - now /\ 0 < remaining /\ mb' = mb.
Proof.
  unfold wait_for_packet_turn.
  destruct (mb !! k) as [[|x queue]|]; try discriminate;
    destruct (bool_decide (deadline - now <= 0)) eqn:Hd;
    destruct stop; simpl; try discriminate;
    intros [= <- <-]; apply bool_decide_eq_false in Hd;
    split_and!; (reflexivity || lia).
Qed.


(** ** Datagrams of the wrong size *)

Lemma port_run_skip before op after (mb : gmap Z (list item)) :
  port_compile op = None ->
  port_run (before ++ op :: after) mb = port_run (before ++ after) mb.
Proof.
  intros Hop. unfold port_run. rewrite !omap_app. simpl. by rewrite Hop.
Qed.

Lemma _rx_loop_body_short datagram :
  (length datagram < 13)%nat -> _rx_loop_body (Received datagram) = RxContinue.
Proof.
  intros Hlen. simpl. unfold UDP_STRUCT_size.
  destruct (_ <? _)%nat eqn:Hlt; [done|].
  apply Nat.ltb_ge in Hlt. rewrite length_take in Hlt. lia.
Qed.

(** A datagram shorter than 13 bytes is dropped by the receive loop:
    nothing is appended to the mailbox, any schedule runs as if the
    datagram had not come, and a waiter whose queue is empty and whose
    deadline has passed when it next looks gets [None], the time-out. *)
Lemma short_datagram_is_dropped (datagram : list byte) :
  (length datagram < 13)%nat ->
  _rx_loop_body (Received datagram) = RxContinue
  /\ (forall before after mb,
        port_run (before ++ OpRecv (Received datagram) :: after) mb
        = port_run (before ++ after) mb)
  /\ (forall X timeout t0 now stop rest (mb : gmap Z (list item)),
        mb !! X = None ->
        t0 + timeout <= now ->
        wait_for_packet X timeout t0
          (mkWake [OpRecv (Received datagram)] now stop :: rest) mb
        = (Return None, mb)).
Proof.
  intros Hlen. pose proof (_rx_loop_body_short datagram Hlen) as Hbody.
  split_and!; [done| |].
  - intros before after mb. apply port_run_skip.
    unfold port_compile. by rewrite Hbody.
  - intros X timeout t0 now stop rest mb HX Hnow.
    unfold wait_for_packet.
    cbn [wait_for_packet_loop wk_others wk_now wk_stop].
    assert (port_run [OpRecv (Received datagram)] mb = (mb, [])) as ->.
    { apply (port_run_skip [] _ [] mb). unfold port_compile. by rewrite Hbody. }
    cbn [fst].
    unfold wait_for_packet_turn. rewrite HX.
    rewrite bool_decide_eq_true_2 by lia. reflexivity.
Qed.

(** C1 as stated fails: a datagram of 14 bytes is not dropped. Its first
    13 bytes are unpacked, the whole datagram is appended under the
    identifier found there, and a waiter for that identifier gets it. *)
Lemma oversized_datagram_is_queued :
  length sample_long <> 13%nat
  /\ _rx_loop_body (Received sample_long)
     = RxAppend 0x123 (sample_long, 8, 0x123, sample_payload)
  /\ (port_run [OpRecv (Received sample_long)] ∅).1 !! 0x123
     = Some [(sample_long, 8, 0x123, sample_payload)]
  /\ (wait_for_packet 0x123 500 0
        [mkWake [OpRecv (Received sample_long)] 10 false] ∅).1
     = Return (Some (sample_long, 8, 0x123, sample_payload)).
Proof. split_and!; [vm_compute; lia | reflexivity..]. Qed.

(** ** The wait for the CAN echo *)

Lemma CAN_EFF_MASK_mod can_id : Z.land can_id CAN_EFF_MASK = can_id mod 2 ^ 29.
Proof.
  change CAN_EFF_MASK with (Z.ones 29). apply Z.land_ones. lia.
Qed.

Lemma take_eq_lookup {A} (n : nat) (l1 l2 : list A) :
  take n l1 = take n l2 <-> forall i : nat, (i < n)%nat -> l1 !! i = l2 !! i.
Proof.
  split.
  - intros H i Hi.
    rewrite <- (lookup_take_lt l1 n i Hi), H. by apply lookup_take_lt.
  - intros H. apply list_eq. intros i.
    destruct (decide (i < n)%nat) as [Hi|Hi].
    + rewrite !lookup_take_lt by done. by apply H.
    + rewrite !lookup_take_ge by lia. reflexivity.
Qed.

Lemma echo_matches_is_echo can_id dlc data expected_id expected_payload :
  echo_matches can_id dlc data expected_id expected_payload = true
  <-> is_echo can_id dlc data expected_id expected_payload.
Proof.
  unfold echo_matches, is_echo.
  rewrite andb_true_iff, !bool_decide_eq_true, CAN_EFF_MASK_mod, take_eq_lookup.
  reflexivity.
Qed.

Section TesterFacts.

Variable native : byteorder.

Lemma _wait_for_can_echo_loop_frame eid ep deadline p rest frame
    can_id dlc pad data :
  poll_live deadline p ->
  poll_recv p = Received frame ->
  CAN_STRUCT_unpack native (take 16 frame) = Some (can_id, dlc, pad, data) ->
  _wait_for_can_echo_loop native eid ep deadline (p :: rest)
  = if echo_matches can_id dlc data eid ep then Return true
    else _wait_for_can_echo_loop native eid ep deadline rest.
Proof.
  intros [Hstop Hnow] Hrecv Hunpack. cbn [_wait_for_can_echo_loop].
  rewrite Hstop, Hrecv. unfold CAN_STRUCT_size. rewrite Hunpack.
  rewrite bool_decide_eq_false_2 by lia. reflexivity.
Qed.

Lemma _wait_for_can_echo_loop_timed_out eid ep deadline p rest :
  poll_live deadline p ->
  poll_recv p = TimedOut ->
  _wait_for_can_echo_loop native eid ep deadline (p :: rest)
  = _wait_for_can_echo_loop native eid ep deadline rest.
Proof.
  intros [Hstop Hnow] Hrecv. cbn [_wait_for_can_echo_loop].
  rewrite Hstop, Hrecv. rewrite bool_decide_eq_false_2 by lia. reflexivity.
Qed.

Lemma _wait_for_can_echo_loop_out_of_time eid ep deadline p rest :
  poll_stop p = false ->
  deadline <= poll_now p ->
  _wait_for_can_echo_loop native eid ep deadline (p :: rest) = Return false.
Proof.
  intros Hstop Hnow. cbn [_wait_for_can_echo_loop].
  rewrite Hstop. rewrite bool_decide_eq_true_2 by lia. reflexivity.
Qed.

(** Passes that see no echo are skipped; the wait goes on with the rest. *)
Lemma _wait_for_can_echo_loop_passes eid ep deadline pre rest :
  Forall (poll_passes native eid ep deadline) pre ->
  _wait_for_can_echo_loop native eid ep deadline (pre ++ rest)
  = _wait_for_can_echo_loop native eid ep deadline rest.
Proof.
  induction 1 as [|p pre [Hlive Hp] _ IH]; [done|].
  rewrite <- IH. change ((p :: pre) ++ rest) with (p :: (pre ++ rest)).
  destruct Hp as [Hto|(frame & can_id & dlc & pad & data & Hr & Hu & Hne)].
  - by apply _wait_for_can_echo_loop_timed_out.
  - rewrite (_wait_for_can_echo_loop_frame eid ep deadline p (pre ++ rest)
               frame can_id dlc pad data Hlive Hr Hu).
    rewrite <- echo_matches_is_echo in Hne.
    by destruct (echo_matches can_id dlc data eid ep).
Qed.

(** With no echo among what arrives, the wait lasts until the clock
    reaches the deadline and then fails. *)
Lemma _wait_for_can_echo_times_out eid ep timeout t0 pre p rest :
  Forall (poll_passes native eid ep (t0 + timeout)) pre ->
  poll_stop p = false ->
  t0 + timeout <= poll_now p ->
  _wait_for_can_echo native eid ep timeout t0 (pre ++ p :: rest) = Return false.
Proof.
  intros Hpre Hstop Hnow. unfold _wait_for_can_echo.
  rewrite (_wait_for_can_echo_loop_passes _ _ _ _ _ Hpre).
  by apply _wait_for_can_echo_loop_out_of_time.
Qed.

(** Once the stop event is set the next pass ends the wait. *)
Lemma _wait_for_can_echo_loop_stopped eid ep deadline p rest :
  poll_stop p = true ->
  _wait_for_can_echo_loop native eid ep deadline (p :: rest) = Return false.
Proof. intros Hstop. cbn [_wait_for_can_echo_loop]. by rewrite Hstop. Qed.

Lemma run_cycle_after_echo self env mb frame packet mb' :
  reaches_can_echo native self env mb frame packet mb' ->
  run_cycle native self env mb
  = let io := [CanSend frame; SendToBridge packet] in
    match _wait_for_can_echo native (rnd_base_id env) (rnd_payload env) 500
            (can_t0 env) (can_polls env) with
    | Return true =>
        mkCycleResult (Return ())
          (record "success" (rnd_base_id env) (stats self)) mb' io
    | Return false =>
        mkCycleResult (Return ())
          (record "can_timeout" (rnd_base_id env) (stats self)) mb' io
    | Raise e => mkCycleResult (Raise e) (stats self) mb' io
    | Pending => mkCycleResult Pending (stats self) mb' io
    end.
Proof.
  intros (Hpack & Hsend & [info Hwait] & Hecho). unfold run_cycle.
  rewrite Hpack, Hsend, Hwait, Hecho.
  rewrite !bool_decide_eq_false_2 by (intros H; by apply H).
  reflexivity.
Qed.

(** C7, as the code has it. While the wait for the CAN echo is neither
    stopped nor out of time, a frame read from the CAN socket ends the
    wait with [True] exactly when it is the echo in the sense of
    [is_echo]: its identifier without the three flag bits (31, 30 and
    29) is the identifier sent, and its data and the payload sent, both
    cut to the frame's declared length, are equal. Any other frame leaves the wait polling, on the
    rest of what arrives; once the budget is used up the wait returns
    [False], and a cycle whose wait returns [False] records
    can_timeout. *)
Theorem can_echo_accepts_exactly_the_echo
    eid ep deadline p rest frame can_id dlc pad data :
  poll_live deadline p ->
  poll_recv p = Received frame ->
  CAN_STRUCT_unpack native (take 16 frame) = Some (can_id, dlc, pad, data) ->
  (is_echo can_id dlc data eid ep ->
   _wait_for_can_echo_loop native eid ep deadline (p :: rest) = Return true)
  /\ (~ is_echo can_id dlc data eid ep ->
      _wait_for_can_echo_loop native eid ep deadline (p :: rest)
      = _wait_for_can_echo_loop native eid ep deadline rest)
  /\ (forall q rest',
        poll_stop q = false -> deadline <= poll_now q ->
        _wait_for_can_echo_loop native eid ep deadline (q :: rest')
        = Return false)
  /\ (forall self env mb fr packet mb',
        reaches_can_echo native self env mb fr packet mb' ->
        _wait_for_can_echo native (rnd_base_id env) (rnd_payload env) 500
          (can_t0 env) (can_polls env) = Return false ->
        cyc_stats (run_cycle native self env mb)
        = record "can_timeout" (rnd_base_id env) (stats self)).
Proof.
  intros Hlive Hrecv Hunpack.
  rewrite (_wait_for_can_echo_loop_frame eid ep deadline p rest frame
             can_id dlc pad data Hlive Hrecv Hunpack).
  split_and!.
  - intros He. apply echo_matches_is_echo in He. by rewrite He.
  - intros He. rewrite <- echo_matches_is_echo in He.
    by destruct (echo_matches can_id dlc data eid ep).
  - intros q rest'. apply _wait_for_can_echo_loop_out_of_time.
  - intros self env mb fr packet mb' Hreach Hfalse.
    rewrite (run_cycle_after_echo self env mb fr packet mb' Hreach), Hfalse.
    reflexivity.
Qed.

End TesterFacts.

Lemma can_echo_accepts_exactly_the_echo_witness :
  _wait_for_can_echo_loop little 0x123 sample_payload 520
    [mkCanPoll false 40 (Received sample_echo_frame)] = Return true
  /\ _wait_for_can_echo_loop little 0x123 sample_payload 520
       [mkCanPoll false 30 (Received sample_other_frame);
        mkCanPoll false 520 TimedOut] = Return false.
Proof.
  split.
  - apply (can_echo_accepts_exactly_the_echo little 0x123 sample_payload 520
             (mkCanPoll false 40 (Received sample_echo_frame)) []
             sample_echo_frame 0x80000123 8 [x00; x00; x00] sample_payload).
    + split; [reflexivity | simpl; lia].
    + reflexivity.
    + reflexivity.
    + split; [reflexivity | intros i _; reflexivity].
  - destruct (can_echo_accepts_exactly_the_echo little 0x123 sample_payload 520
                (mkCanPoll false 30 (Received sample_other_frame))
                [mkCanPoll false 520 TimedOut]
                sample_other_frame 0x124 8 [x00; x00; x00] sample_payload)
      as (_ & Hother & Hlate & _).
    + split; [reflexivity | simpl; lia].
    + reflexivity.
    + reflexivity.
    + rewrite Hother.
      * apply Hlate; [reflexivity | simpl; lia].
      * intros [Hid _]. vm_compute in Hid. discriminate.
Defined.

(** A frame for another identifier is passed over, and the echo that
    follows it is accepted; when only the other frame comes and the
    clock then passes the deadline, the wait fails. *)
Example can_echo_skips_other_frame :
  _wait_for_can_echo little 0x123 sample_payload 500 20
    [mkCanPoll false 25 TimedOut;
     mkCanPoll false 30 (Received sample_other_frame);
     mkCanPoll false 40 (Received sample_echo_frame)] = Return true
  /\ _wait_for_can_echo little 0x123 sample_payload 500 20
       [mkCanPoll false 30 (Received sample_other_frame);
        mkCanPoll false 520 (Received sample_echo_frame)] = Return false.
Proof. split; reflexivity. Qed.

(** C10. A frame whose identifier, without the flag bits, is the one
    expected and whose declared length is 0 ends the wait for the CAN
    echo with [True], whatever its data bytes and whatever payload was
    sent: both are cut to the frame's declared length before they are
    compared. *)
Theorem empty_frame_passes_for_echo
    native eid ep deadline p rest frame can_id pad data :
  poll_live deadline p ->
  poll_recv p = Received frame ->
  CAN_STRUCT_unpack native (take 16 frame) = Some (can_id, 0, pad, data) ->
  Z.land can_id CAN_EFF_MASK = eid ->
  _wait_for_can_echo_loop native eid ep deadline (p :: rest) = Return true.
Proof.
  intros Hlive Hrecv Hunpack Hid.
  rewrite (_wait_for_can_echo_loop_frame native eid ep deadline p rest frame
             can_id 0 pad data Hlive Hrecv Hunpack).
  unfold echo_matches. rewrite Hid. simpl.
  by rewrite bool_decide_eq_true_2.
Qed.

Lemma empty_frame_passes_for_echo_witness :
  _wait_for_can_echo_loop little 0x123 sample_payload 520
    [mkCanPoll false 40 (Received sample_empty_frame)] = Return true.
Proof.
  apply (empty_frame_passes_for_echo little 0x123 sample_payload 520
           (mkCanPoll false 40 (Received sample_empty_frame)) []
           sample_empty_frame 0x123 [x00; x00; x00]
           [xff; xff; xff; xff; xff; xff; xff; xff]).
  - split; [reflexivity | simpl; lia].
  - reflexivity.
  - reflexivity.
  - reflexivity.
Defined.

(** A whole cycle that counts as a success on such a frame. *)
Example cycle_succeeds_on_empty_frame :
  let env := mkCycleEnv 0x123 sample_payload Sent
               0 [mkWake [OpRecv (Received sample_datagram)] 10 false] Sent
               20 [mkCanPoll false 40 (Received sample_empty_frame)] in
  cyc_stats (run_cycle little sample_tester env ∅)
  = record "success" 0x123 (stats sample_tester).
Proof. reflexivity. Qed.

(** ** The test cycle *)

(** C4. In a cycle whose CAN frame went out and whose wait on the
    mailbox returned a datagram, if the identifier or the payload of
    that datagram differs from what was drawn for the cycle, the cycle
    ends there: it records data_error (the data_error counter goes up by
    one, the success counter stays), it sends nothing to the bridge and
    reads nothing from the CAN socket, and the datagram, already taken
    out of the mailbox, is not put back. *)
Theorem mismatched_reply_is_data_error
    native self env (mb : gmap Z (list item)) frame
    packet info packet_id udp_payload mb' :
  CAN_STRUCT_pack native
    (Z.lor (rnd_base_id env) (if extended self then CAN_EFF_FLAG else 0))
    8 [x00; x00; x00] (rnd_payload env) = Some frame ->
  can_send_result env = Sent ->
  wait_for_packet (rnd_base_id env) 500 (udp_t0 env) (udp_wakes env) mb
  = (Return (Some (packet, info, packet_id, udp_payload)), mb') ->
  packet_id <> rnd_base_id env \/ udp_payload <> rnd_payload env ->
  run_cycle native self env mb
  = mkCycleResult (Return ())
      (record "data_error" (rnd_base_id env) (stats self)) mb' [CanSend frame]
  /\ data_errors (cyc_stats (run_cycle native self env mb))
     = data_errors (stats self) + 1
  /\ success (cyc_stats (run_cycle native self env mb)) = success (stats self).
Proof.
  intros Hpack Hsend Hwait Hdiff.
  assert (run_cycle native self env mb
          = mkCycleResult (Return ())
              (record "data_error" (rnd_base_id env) (stats self)) mb'
              [CanSend frame]) as ->.
  { unfold run_cycle. rewrite Hpack, Hsend, Hwait.
    destruct Hdiff as [Hid|Hpl].
    - by rewrite (bool_decide_eq_true_2 _ Hid).
    - rewrite (bool_decide_eq_true_2 (udp_payload <> _) Hpl).
      by rewrite orb_true_r. }
  split_and!; reflexivity.
Qed.

Lemma mismatched_reply_is_data_error_witness :
  let env := mkCycleEnv 0x123 (replicate 8 x00) Sent
               0 [mkWake [OpRecv (Received sample_datagram)] 10 false] Sent
               20 [mkCanPoll false 40 (Received sample_echo_frame)] in
  cyc_status (run_cycle little sample_tester env ∅) = Return ()
  /\ data_errors (cyc_stats (run_cycle little sample_tester env ∅)) = 1
  /\ success (cyc_stats (run_cycle little sample_tester env ∅)) = 0
  /\ cyc_mailbox (run_cycle little sample_tester env ∅) = ∅.
Proof.
  intros env.
  destruct (mismatched_reply_is_data_error little sample_tester env ∅
              ([x23; x01; x00; x00; x08; x00; x00; x00] ++ replicate 8 x00)
              sample_datagram 8 0x123 sample_payload ∅)
    as (Hrun & Hd & Hs).
  - reflexivity.
  - reflexivity.
  - reflexivity.
  - right. discriminate.
  - rewrite Hrun. split_and!; reflexivity.
Defined.

(** C5, as the code has it. A cycle in which a send fails records
    send_error and ends at once. When it is the CAN transmit that fails
    nothing was sent and the tester sleeps 0.2 s, which is all that
    happens before the next cycle. When it is the UDP echo that fails
    (after a reply that matched) the cycle ends with the CAN frame sent,
    nothing echoed and no wait for a CAN echo. *)
Theorem send_failure_is_send_error
    native self env (mb : gmap Z (list item)) frame :
  CAN_STRUCT_pack native
    (Z.lor (rnd_base_id env) (if extended self then CAN_EFF_FLAG else 0))
    8 [x00; x00; x00] (rnd_payload env) = Some frame ->
  (can_send_result env = SendOSError ->
   run_cycle native self env mb
   = mkCycleResult (Return ())
       (record "send_error" (rnd_base_id env) (stats self)) mb [Sleep 200]
   /\ forall rest,
        cyc_effects (run_loop native self ((false, env) :: rest) mb)
        = Sleep 200
          :: cyc_effects
               (run_loop native
                  (mkChannelTester (tester_id_min self) (tester_id_max self)
                     (extended self)
                     (record "send_error" (rnd_base_id env) (stats self)))
                  rest mb))
  /\ (forall packet info mb',
        can_send_result env = Sent ->
        wait_for_packet (rnd_base_id env) 500 (udp_t0 env) (udp_wakes env) mb
        = (Return (Some (packet, info, rnd_base_id env, rnd_payload env)), mb') ->
        udp_send_result env = SendOSError ->
        run_cycle native self env mb
        = mkCycleResult (Return ())
            (record "send_error" (rnd_base_id env) (stats self)) mb'
            [CanSend frame]).
Proof.
  intros Hpack. split.
  - intros Hsend.
    assert (run_cycle native self env mb
            = mkCycleResult (Return ())
                (record "send_error" (rnd_base_id env) (stats self)) mb
                [Sleep 200]) as Hrun.
    { unfold run_cycle. by rewrite Hpack, Hsend. }
    split; [exact Hrun|].
    intros rest. cbn [run_loop]. rewrite Hrun. reflexivity.
  - intros packet info mb' Hsend Hwait Hecho.
    unfold run_cycle. rewrite Hpack, Hsend, Hwait, Hecho.
    rewrite !bool_decide_eq_false_2 by (intros H; by apply H).
    reflexivity.
Qed.

Lemma send_failure_is_send_error_witness :
  let env := mkCycleEnv 0x123 sample_payload SendOSError 0 [] Sent 0 [] in
  run_cycle little sample_tester env ∅
  = mkCycleResult (Return ())
      (record "send_error" 0x123 (stats sample_tester)) ∅ [Sleep 200].
Proof.
  intros env.
  destruct (send_failure_is_send_error little sample_tester env ∅
              ([x23; x01; x00; x00; x08; x00; x00; x00] ++ sample_payload))
    as [Hcan _].
  - reflexivity.
  - apply Hcan. reflexivity.
Defined.

(** C5 as stated fails: when the UDP echo cannot be sent, the cycle
    records send_error and the next cycle starts with no pause in
    between. Here the first cycle loses its echo, and the second, whose
    CAN transmit fails, is the one that sleeps. *)
Lemma failed_udp_echo_has_no_backoff :
  let env1 := mkCycleEnv 0x123 sample_payload Sent
                0 [mkWake [OpRecv (Received sample_datagram)] 10 false]
                SendOSError 20 [] in
  let env2 := mkCycleEnv 0x124 sample_payload SendOSError 0 [] Sent 0 [] in
  let frame := [x23; x01; x00; x00; x08; x00; x00; x00] ++ sample_payload in
  send_errors (cyc_stats (run_cycle little sample_tester env1 ∅)) = 1
  /\ cyc_effects (run_cycle little sample_tester env1 ∅) = [CanSend frame]
  /\ cyc_effects
       (run_loop little sample_tester [(false, env1); (false, env2); (true, env2)] ∅)
     = [CanSend frame; Sleep 200; CanClose].
Proof. split_and!; reflexivity. Qed.

(** A whole cycle on the sample data: the frame goes out, the datagram
    comes back and is echoed, the CAN echo arrives, and the statistics
    count one success. After it the stop event ends the loop and the CAN
    socket is closed. *)
Example sample_cycle_succeeds :
  run_cycle little sample_tester sample_env ∅
  = mkCycleResult (Return ()) (record "success" 0x123 (stats sample_tester)) ∅
      [CanSend ([x23; x01; x00; x00; x08; x00; x00; x00] ++ sample_payload);
       SendToBridge sample_datagram]
  /\ cyc_effects (run little sample_tester true
                    [(false, sample_env); (true, sample_env)] ∅)
     = [CanSend ([x23; x01; x00; x00; x08; x00; x00; x00] ++ sample_payload);
        SendToBridge sample_datagram; CanClose].
Proof. split; reflexivity. Qed.

(** * Further properties *)

(** ** Bytes and integers *)

Lemma byte_to_Z_range b : 0 <= byte_to_Z b < 256.
Proof.
  unfold byte_to_Z. pose proof (Byte.to_N_bounded b). lia.
Qed.

Lemma byte_to_Z_to_byte z : byte_to_Z (Z_to_byte z) = z mod 256.
Proof.
  unfold byte_to_Z, Z_to_byte.
  assert (0 <= z mod 256 < 256) as Hr by (apply Z.mod_pos_bound; lia).
  destruct (Byte.of_N (Z.to_N (z mod 256))) as [b|] eqn:Hb.
  - apply Byte.to_of_N in Hb. rewrite Hb. lia.
  - apply Byte.of_N_None_iff in Hb. lia.
Qed.

Lemma Z_to_byte_to_Z b : Z_to_byte (byte_to_Z b) = b.
Proof.
  unfold byte_to_Z, Z_to_byte. pose proof (Byte.to_N_bounded b).
  rewrite Z.mod_small by lia. rewrite N2Z.id, Byte.of_to_N. reflexivity.
Qed.

Lemma byte_testbit b n : 8 <= n -> Z.testbit (byte_to_Z b) n = false.
Proof.
  intros Hn. pose proof (byte_to_Z_range b) as Hb.
  rewrite <- (Z.mod_small (byte_to_Z b) (2 ^ 8)) by (change (2 ^ 8) with 256; lia).
  apply Z.mod_pow2_bits_high. lia.
Qed.

Lemma shifted_byte_testbit z k n :
  0 <= k -> 0 <= n ->
  Z.testbit (byte_to_Z (Z_to_byte (Z.shiftr z k))) n
  = if n <? 8 then Z.testbit z (n + k) else false.
Proof.
  intros Hk Hn. rewrite byte_to_Z_to_byte. change 256 with (2 ^ 8).
  destruct (n <? 8) eqn:Hlt.
  - apply Z.ltb_lt in Hlt. rewrite Z.mod_pow2_bits_low by lia.
    by rewrite Z.shiftr_spec by lia.
  - apply Z.ltb_ge in Hlt. apply Z.mod_pow2_bits_high. lia.
Qed.

Lemma be_u32_testbit b3 b2 b1 b0 n :
  0 <= n ->
  Z.testbit (be_u32 b3 b2 b1 b0) n
  = if n <? 8 then Z.testbit (byte_to_Z b0) n
    else if n <? 16 then Z.testbit (byte_to_Z b1) (n - 8)
    else if n <? 24 then Z.testbit (byte_to_Z b2) (n - 16)
    else Z.testbit (byte_to_Z b3) (n - 24).
Proof.
  intros Hn. unfold be_u32.
  rewrite !Z.lor_spec, !Z.shiftl_spec by lia.
  repeat match goal with
         | |- context [?a <? ?b] => destruct (Z.ltb_spec a b)
         end;
    rewrite ?(Z.testbit_neg_r _ (n - 24)), ?(Z.testbit_neg_r _ (n - 16)),
      ?(Z.testbit_neg_r _ (n - 8)) by lia;
    rewrite ?(byte_testbit b0 n), ?(byte_testbit b1 (n - 8)),
      ?(byte_testbit b2 (n - 16)) by lia;
    rewrite ?orb_false_r, ?orb_false_l; reflexivity.
Qed.

Lemma be_u32_range b3 b2 b1 b0 : 0 <= be_u32 b3 b2 b1 b0 < 2 ^ 32.
Proof.
  assert (be_u32 b3 b2 b1 b0 = be_u32 b3 b2 b1 b0 mod 2 ^ 32) as ->.
  { apply Z.bits_inj'. intros n Hn.
    destruct (Z.ltb_spec n 32).
    - by rewrite Z.mod_pow2_bits_low by lia.
    - rewrite Z.mod_pow2_bits_high by lia.
      rewrite be_u32_testbit by lia.
      repeat match goal with
             | |- context [?a <? ?b] => destruct (Z.ltb_spec a b)
             end; try lia.
      apply byte_testbit. lia. }
  apply Z.mod_pos_bound. lia.
Qed.

Lemma u32_bytes_round_trip bo z :
  0 <= z < 2 ^ 32 ->
  exists a b c d,
    u32_to_bytes bo z = [a; b; c; d] /\ u32_of_bytes bo a b c d = z.
Proof.
  intros Hz.
  assert (be_u32 (Z_to_byte (Z.shiftr z 24)) (Z_to_byte (Z.shiftr z 16))
            (Z_to_byte (Z.shiftr z 8)) (Z_to_byte z) = z) as Hbe.
  { apply Z.bits_inj'. intros n Hn. rewrite be_u32_testbit by lia.
    rewrite <- (Z.shiftr_0_r z) at 1.
    repeat match goal with
           | |- context [?a <? ?b] => destruct (Z.ltb_spec a b)
           end;
      rewrite shifted_byte_testbit by lia.
    - rewrite (proj2 (Z.ltb_lt n 8)) by lia. f_equal. lia.
    - rewrite (proj2 (Z.ltb_lt (n - 8) 8)) by lia. f_equal. lia.
    - rewrite (proj2 (Z.ltb_lt (n - 16) 8)) by lia. f_equal. lia.
    - destruct (Z.ltb_spec (n - 24) 8); [f_equal; lia|].
      symmetry. rewrite <- (Z.mod_small z (2 ^ 32)) by lia.
      apply Z.mod_pow2_bits_high. lia. }
  destruct bo; simpl; do 4 eexists; split; try reflexivity; exact Hbe.
Qed.

(** ** The CAN layout *)

Lemma pack_s_length n s : length (pack_s n s) = n.
Proof.
  unfold pack_s. rewrite length_app, length_take, length_replicate. lia.
Qed.

Lemma pack_s_exact n s : length s = n -> pack_s n s = s.
Proof.
  intros <-. unfold pack_s. rewrite firstn_all, Nat.sub_diag. simpl.
  by rewrite app_nil_r.
Qed.

Lemma CAN_STRUCT_pack_None native can_id dlc pad data :
  CAN_STRUCT_pack native can_id dlc pad data = None
  <-> ~ (0 <= can_id < 2 ^ 32 /\ 0 <= dlc < 256).
Proof.
  unfold CAN_STRUCT_pack.
  destruct (bool_decide (0 <= can_id < 2 ^ 32)) eqn:H1;
    destruct (bool_decide (0 <= dlc < 256)) eqn:H2; simpl;
    try apply bool_decide_eq_true in H1; try apply bool_decide_eq_false in H1;
    try apply bool_decide_eq_true in H2; try apply bool_decide_eq_false in H2;
    split; try done; tauto.
Qed.

Lemma CAN_STRUCT_pack_unpack native can_id dlc pad data frame :
  CAN_STRUCT_pack native can_id dlc pad data = Some frame ->
  length frame = 16%nat
  /\ CAN_STRUCT_unpack native frame
     = Some (can_id, dlc, pack_s 3 pad, pack_s 8 data).
Proof.
  unfold CAN_STRUCT_pack.
  destruct (bool_decide (0 <= can_id < 2 ^ 32)) eqn:H1; [|discriminate].
  destruct (bool_decide (0 <= dlc < 256)) eqn:H2; [|discriminate].
  apply bool_decide_eq_true in H1, H2. simpl. intros [= <-].
  destruct (u32_bytes_round_trip native can_id H1) as (a & b & c & d & -> & Hid).
  pose proof (pack_s_length 3 pad) as Hpad.
  pose proof (pack_s_length 8 data) as Hdata.
  destruct (pack_s 3 pad) as [|p0 [|p1 [|p2 [|]]]]; try discriminate.
  split.
  - simpl. by rewrite Hdata.
  - simpl. rewrite Hdata. simpl.
    rewrite Hid, byte_to_Z_to_byte, Z.mod_small by lia. reflexivity.
Qed.

(** X1. Packing a CAN frame and unpacking it gives the fields back, in
    either byte order: for an identifier below 2^32 and a length below
    256 the packing succeeds with 16 bytes, and unpacking those returns
    the identifier, the length, and the padding and data cut or
    zero-filled to 3 and 8 bytes. *)
Theorem CAN_STRUCT_round_trip native can_id dlc pad data :
  0 <= can_id < 2 ^ 32 ->
  0 <= dlc < 256 ->
  exists frame,
    CAN_STRUCT_pack native can_id dlc pad data = Some frame
    /\ length frame = 16%nat
    /\ CAN_STRUCT_unpack native frame
       = Some (can_id, dlc, pack_s 3 pad, pack_s 8 data).
Proof.
  intros Hid Hdlc.
  destruct (CAN_STRUCT_pack native can_id dlc pad data) as [frame|] eqn:Hp.
  - exists frame. split; [done|]. by apply CAN_STRUCT_pack_unpack.
  - apply CAN_STRUCT_pack_None in Hp. tauto.
Qed.

Lemma CAN_STRUCT_round_trip_witness :
  exists frame,
    CAN_STRUCT_pack big 0x80000123 8 [x00; x00; x00] sample_payload = Some frame
    /\ length frame = 16%nat
    /\ CAN_STRUCT_unpack big frame
       = Some (0x80000123, 8, pack_s 3 [x00; x00; x00], pack_s 8 sample_payload).
Proof.
  apply (CAN_STRUCT_round_trip big 0x80000123 8 [x00; x00; x00] sample_payload);
    vm_compute; split; (discriminate || reflexivity).
Defined.

(** ** The identifier mask *)

Lemma below_pow2_testbit b k n :
  0 <= b < 2 ^ k -> 0 <= k <= n -> Z.testbit b n = false.
Proof.
  intros Hb Hn. rewrite <- (Z.mod_small b (2 ^ k)) by exact Hb.
  apply Z.mod_pow2_bits_high. lia.
Qed.

Lemma mask_strips_flag b (f : bool) :
  0 <= b < 2 ^ 29 ->
  Z.land (Z.lor b (if f then CAN_EFF_FLAG else 0)) CAN_EFF_MASK = b.
Proof.
  intros Hb. rewrite CAN_EFF_MASK_mod.
  apply Z.bits_inj'. intros n Hn.
  destruct (Z.ltb_spec n 29).
  - rewrite Z.mod_pow2_bits_low, Z.lor_spec by lia.
    destruct f; [|by rewrite Z.bits_0, orb_false_r].
    change CAN_EFF_FLAG with (2 ^ 31).
    rewrite Z.pow2_bits_false by lia. by rewrite orb_false_r.
  - rewrite Z.mod_pow2_bits_high by lia. symmetry.
    apply (below_pow2_testbit b 29); [done | lia].
Qed.

Lemma masked_id_range can_id : 0 <= Z.land can_id CAN_EFF_MASK < 2 ^ 29.
Proof. rewrite CAN_EFF_MASK_mod. apply Z.mod_pos_bound. lia. Qed.

(** X2. The frame a cycle sends is, read back, the echo it waits for:
    with an identifier below 2^29 and a payload of 8 bytes, whether or
    not the tester sets the extended flag, a live poll that reads the
    very frame that was packed ends the wait with [True]. *)
Theorem own_frame_is_the_echo native self env frame deadline p rest :
  0 <= rnd_base_id env < 2 ^ 29 ->
  length (rnd_payload env) = 8%nat ->
  CAN_STRUCT_pack native
    (Z.lor (rnd_base_id env) (if extended self then CAN_EFF_FLAG else 0))
    8 [x00; x00; x00] (rnd_payload env) = Some frame ->
  poll_live deadline p ->
  poll_recv p = Received frame ->
  _wait_for_can_echo_loop native (rnd_base_id env) (rnd_payload env) deadline
    (p :: rest) = Return true.
Proof.
  intros Hid Hlen Hpack Hlive Hrecv.
  apply CAN_STRUCT_pack_unpack in Hpack as [Hl Hu].
  rewrite (pack_s_exact 8 _ Hlen) in Hu.
  assert (CAN_STRUCT_unpack native (take 16 frame)
          = Some (Z.lor (rnd_base_id env)
                    (if extended self then CAN_EFF_FLAG else 0), 8,
                  pack_s 3 [x00; x00; x00], rnd_payload env)) as Hu'.
  { rewrite <- Hl, firstn_all. exact Hu. }
  rewrite (_wait_for_can_echo_loop_frame native _ _ deadline p rest frame
             _ _ _ _ Hlive Hrecv Hu').
  unfold echo_matches. rewrite mask_strips_flag by done.
  by rewrite !bool_decide_eq_true_2.
Qed.

Lemma own_frame_is_the_echo_witness :
  _wait_for_can_echo_loop little 0x123 sample_payload 520
    [mkCanPoll false 40
       (Received ([x23; x01; x00; x00; x08; x00; x00; x00] ++ sample_payload))]
  = Return true.
Proof.
  apply (own_frame_is_the_echo little sample_tester sample_env
           ([x23; x01; x00; x00; x08; x00; x00; x00] ++ sample_payload) 520
           (mkCanPoll false 40
              (Received ([x23; x01; x00; x00; x08; x00; x00; x00]
                           ++ sample_payload))) []).
  - vm_compute; split; (discriminate || reflexivity).
  - reflexivity.
  - reflexivity.
  - split; [reflexivity | simpl; lia].
  - reflexivity.
Defined.

(** X3. An identifier outside 0 .. 2^29 - 1 can never be echoed: the
    mask leaves 29 bits of every frame's identifier, so whatever
    arrives, the wait for the CAN echo does not return [True]. *)
Theorem wide_identifier_never_echoed native eid ep deadline script :
  ~ (0 <= eid < 2 ^ 29) ->
  _wait_for_can_echo_loop native eid ep deadline script <> Return true.
Proof.
  intros Heid. induction script as [|p script IH]; simpl; [discriminate|].
  destruct (poll_stop p); [discriminate|].
  destruct (bool_decide (deadline - poll_now p <= 0)); [discriminate|].
  destruct (poll_recv p) as [frame| |]; [|done|discriminate].
  destruct (CAN_STRUCT_unpack native (take CAN_STRUCT_size frame))
    as [[[[can_id dlc] pad] data]|]; [|discriminate].
  unfold echo_matches.
  rewrite (bool_decide_eq_false_2 (Z.land can_id CAN_EFF_MASK = eid)); [done|].
  intros <-. apply Heid, masked_id_range.
Qed.

Lemma wide_identifier_never_echoed_witness :
  _wait_for_can_echo_loop little 0x20000123 sample_payload 520
    [mkCanPoll false 40
       (Received ([x23; x01; x00; x20; x08; x00; x00; x00] ++ sample_payload))]
  <> Return true.
Proof.
  apply (wide_identifier_never_echoed little 0x20000123 sample_payload 520).
  intros [_ H]. vm_compute in H. discriminate.
Defined.

(** ** Queues are first in, first out *)

Section MailboxOrder.

Context {A : Type}.
Implicit Types (mb : gmap Z (list A)) (ops : list (mailbox_op A)).

Lemma for_id_app X (l1 l2 : list (Z * A)) :
  for_id X (l1 ++ l2) = for_id X l1 ++ for_id X l2.
Proof. apply omap_app. Qed.

Lemma for_id_cons X k x (l : list (Z * A)) :
  for_id X ((k, x) :: l) = (if decide (k = X) then [x] else []) ++ for_id X l.
Proof. unfold for_id. simpl. by case_decide. Qed.

Lemma queue_of_append X k x mb :
  queue_of X (mailbox_append k x mb)
  = queue_of X mb ++ (if decide (k = X) then [x] else []).
Proof.
  unfold queue_of, mailbox_append. case_decide as Hk.
  - subst. by rewrite lookup_insert_eq.
  - rewrite lookup_insert_ne by done. by rewrite app_nil_r.
Qed.

(** A turn, read off the queue of its identifier. *)
Lemma wait_for_packet_turn_queue k deadline now stop mb :
  (wait_for_packet_turn k deadline now stop mb).1
  = match queue_of k mb with
    | x :: _ => Deliver x
    | [] => if bool_decide (deadline - now <= 0) || stop then GiveUp
            else Block (deadline - now)
    end
  /\ queue_of k (wait_for_packet_turn k deadline now stop mb).2
     = tail (queue_of k mb)
  /\ forall X, X <> k ->
       queue_of X (wait_for_packet_turn k deadline now stop mb).2
       = queue_of X mb.
Proof.
  unfold wait_for_packet_turn, queue_of.
  destruct (mb !! k) as [[|x [|y queue]]|] eqn:Hk; simpl;
    try (destruct (bool_decide _ || stop); simpl; rewrite ?Hk; by split_and!).
  - split_and!; [done | by rewrite lookup_delete_eq |].
    intros X HX. by rewrite lookup_delete_ne.
  - split_and!; [done | by rewrite lookup_insert_eq |].
    intros X HX. by rewrite lookup_insert_ne.
Qed.

Lemma mailbox_step_order X op mb :
  for_id X (from_option (fun d => [d]) [] (mailbox_step op mb).2)
    ++ queue_of X (mailbox_step op mb).1
  = queue_of X mb ++ for_id X (enqueued [op]).
Proof.
  destruct op as [k x|k deadline now stop]; simpl.
  - rewrite queue_of_append. unfold for_id. simpl. by case_decide.
  - destruct (wait_for_packet_turn_queue k deadline now stop mb)
      as (H1 & H2 & H3).
    destruct (wait_for_packet_turn k deadline now stop mb) as [t mb'].
    cbn [fst snd] in *. change (for_id X []) with (@nil A).
    rewrite app_nil_r.
    destruct (decide (X = k)) as [->|HX].
    + destruct (queue_of k mb) as [|x q]; subst t.
      * destruct (bool_decide _ || stop); cbn [fst snd from_option];
          by rewrite H2.
      * cbn [fst snd from_option]. rewrite H2, for_id_cons.
        by rewrite decide_True.
    + destruct t as [x| |r]; cbn [fst snd from_option]; rewrite (H3 X HX);
        try done.
      rewrite for_id_cons. by rewrite decide_False.
Qed.

Lemma mailbox_run_order X ops mb :
  for_id X (mailbox_run ops mb).2 ++ queue_of X (mailbox_run ops mb).1
  = queue_of X mb ++ for_id X (enqueued ops).
Proof.
  revert mb. induction ops as [|op ops IH]; intros mb.
  - simpl. by rewrite app_nil_r.
  - rewrite enqueued_cons, for_id_app. cbn [mailbox_run].
    pose proof (mailbox_step_order X op mb) as H1.
    destruct (mailbox_step op mb) as [mb1 d]. cbn [fst snd] in H1.
    specialize (IH mb1).
    destruct (mailbox_run ops mb1) as [mb2 ds]. cbn [fst snd] in *.
    rewrite for_id_app, <- (assoc (++)), IH, !(assoc (++)), H1. reflexivity.
Qed.

End MailboxOrder.

(** X4. For each identifier, the datagrams handed to its waiters,
    followed by those still in its queue, are the datagrams the receive
    loop filed under it, in the order they came: queues are first in,
    first out, nothing is dropped and nothing is added. *)
Theorem deliveries_follow_arrival_order (ops : list port_op) (X : Z) :
  for_id X (port_run ops ∅).2 ++ queue_of X (port_run ops ∅).1
  = for_id X (port_appends ops).
Proof.
  unfold port_run, port_appends. rewrite mailbox_run_order.
  unfold queue_of. by rewrite lookup_empty.
Qed.

(** ** Identifiers do not disturb each other *)

Lemma port_run_cons op ops (mb : gmap Z (list item)) :
  port_run (op :: ops) mb
  = match port_compile op with
    | None => port_run ops mb
    | Some mop =>
        let '(mb1, d) := mailbox_step mop mb in
        let '(mb2, ds) := port_run ops mb1 in
        (mb2, from_option (fun x => [x]) [] d ++ ds)
    end.
Proof.
  unfold port_run.
  change (omap port_compile (op :: ops))
    with (match port_compile op with
          | Some mop => mop :: omap port_compile ops
          | None => omap port_compile ops
          end).
  by destruct (port_compile op).
Qed.

Lemma port_run_only_own_ops X ops (mb1 mb2 : gmap Z (list item)) :
  queue_of X mb1 = queue_of X mb2 ->
  for_id X (port_run ops mb1).2
  = for_id X (port_run (filter (fun op => port_concerns X op = true) ops) mb2).2
  /\ queue_of X (port_run ops mb1).1
     = queue_of X
         (port_run (filter (fun op => port_concerns X op = true) ops) mb2).1.
Proof.
  revert mb1 mb2. induction ops as [|op ops IH]; intros mb1 mb2 Hq; [done|].
  rewrite (port_run_cons op ops mb1).
  destruct (port_concerns X op) eqn:Hc.
  - (* the step is for [X]: both runs make it *)
    rewrite filter_cons_True by done. rewrite port_run_cons.
    unfold port_concerns in Hc.
    destruct (port_compile op) as [[k x|k deadline now stop]|];
      [| |discriminate]; apply bool_decide_eq_true in Hc as ->;
      cbn [mailbox_step].
    + specialize (IH (mailbox_append X x mb1) (mailbox_append X x mb2)).
      destruct (port_run ops (mailbox_append X x mb1)) as [m1 d1].
      destruct (port_run _ (mailbox_append X x mb2)) as [m2 d2].
      apply IH. rewrite !queue_of_append. by rewrite Hq.
    + destruct (wait_for_packet_turn_queue X deadline now stop mb1)
        as (Ht1 & Hs1 & _).
      destruct (wait_for_packet_turn_queue X deadline now stop mb2)
        as (Ht2 & Hs2 & _).
      rewrite <- Hq in Ht2, Hs2. rewrite <- Ht1 in Ht2. rewrite <- Hs1 in Hs2.
      destruct (wait_for_packet_turn X deadline now stop mb1) as [t1 m1].
      destruct (wait_for_packet_turn X deadline now stop mb2) as [t2 m2].
      cbn [fst snd] in *. subst t2. specialize (IH m1 m2 (eq_sym Hs2)).
      destruct t1 as [y| |r]; cbn beta iota;
        destruct (port_run ops m1) as [m1' d1];
        destruct (port_run _ m2) as [m2' d2]; cbn [fst snd from_option] in *;
        destruct IH as [IHd IHq]; (split; [|exact IHq]);
        rewrite ?for_id_app; by rewrite IHd.
  - (* the step is for another identifier, or does nothing *)
    rewrite filter_cons_False by (by rewrite Hc).
    unfold port_concerns in Hc.
    destruct (port_compile op) as [[k x|k deadline now stop]|];
      [| |by apply IH]; apply bool_decide_eq_false in Hc;
      cbn [mailbox_step].
    + specialize (IH (mailbox_append k x mb1) mb2).
      destruct (port_run ops (mailbox_append k x mb1)) as [m1 d1].
      apply IH. rewrite queue_of_append, decide_False by done.
      by rewrite app_nil_r.
    + destruct (wait_for_packet_turn_queue k deadline now stop mb1)
        as (_ & _ & Ho1).
      assert (X <> k) as HX by congruence. specialize (Ho1 X HX).
      destruct (wait_for_packet_turn k deadline now stop mb1) as [t1 m1].
      cbn [fst snd] in *. rewrite <- Ho1 in Hq. specialize (IH m1 mb2 Hq).
      destruct t1 as [y| |r]; cbn beta iota;
        destruct (port_run ops m1) as [m1' d1]; cbn [fst snd from_option] in *;
        destruct IH as [IHd IHq]; (split; [|exact IHq]);
        rewrite ?for_id_app, ?for_id_cons, ?decide_False by done; exact IHd.
Qed.

(** X5. What the waiters of one identifier receive does not depend on
    the traffic of the others: strike from any schedule every append
    and every turn of a wait that is for another identifier, and the
    waiters of this one receive the same datagrams in the same order
    and leave the same queue behind. *)
Theorem other_identifiers_do_not_interfere
    (ops : list port_op) (X : Z) (mb : gmap Z (list item)) :
  for_id X (port_run ops mb).2
  = for_id X (port_run (filter (fun op => port_concerns X op = true) ops) mb).2
  /\ queue_of X (port_run ops mb).1
     = queue_of X
         (port_run (filter (fun op => port_concerns X op = true) ops) mb).1.
Proof. by apply port_run_only_own_ops. Qed.

(** ** The UDP layout *)

Lemma Z_to_byte_mod z : Z_to_byte z = Z_to_byte (z mod 256).
Proof. unfold Z_to_byte. by rewrite Z.mod_mod. Qed.

Lemma Z_to_byte_of_mod z b : z mod 256 = byte_to_Z b -> Z_to_byte z = b.
Proof. intros H. rewrite Z_to_byte_mod, H. apply Z_to_byte_to_Z. Qed.

Lemma be_u32_bytes b3 b2 b1 b0 :
  u32_to_bytes big (be_u32 b3 b2 b1 b0) = [b3; b2; b1; b0].
Proof.
  assert (forall k b,
             0 <= k ->
             (forall n, 0 <= n < 8 ->
                        Z.testbit (be_u32 b3 b2 b1 b0) (n + k)
                        = Z.testbit (byte_to_Z b) n) ->
             Z_to_byte (Z.shiftr (be_u32 b3 b2 b1 b0) k) = b) as Hbyte.
  { intros k b Hk Hbits. apply Z_to_byte_of_mod.
    apply Z.bits_inj'. intros n Hn. change 256 with (2 ^ 8).
    destruct (Z.ltb_spec n 8).
    - rewrite Z.mod_pow2_bits_low, Z.shiftr_spec by lia. apply Hbits. lia.
    - rewrite Z.mod_pow2_bits_high by lia. symmetry. by apply byte_testbit. }
  unfold u32_to_bytes. rewrite <- (Z.shiftr_0_r (be_u32 b3 b2 b1 b0)) at 4.
  repeat f_equal; apply Hbyte; try lia; intros n Hn;
    rewrite be_u32_testbit by lia;
    repeat match goal with
           | |- context [?a <? ?b] => destruct (Z.ltb_spec a b)
           end; try lia; f_equal; lia.
Qed.

Lemma be_u32_inj a b c d a' b' c' d' :
  be_u32 a b c d = be_u32 a' b' c' d' -> [a; b; c; d] = [a'; b'; c'; d'].
Proof. intros H. rewrite <- !be_u32_bytes. by rewrite H. Qed.

Lemma byte_to_Z_inj b b' : byte_to_Z b = byte_to_Z b' -> b = b'.
Proof. intros H. rewrite <- (Z_to_byte_to_Z b), H. apply Z_to_byte_to_Z. Qed.

Lemma UDP_STRUCT_unpack_Some buf info id payload :
  UDP_STRUCT_unpack buf = Some (info, id, payload) ->
  exists i i3 i2 i1 i0,
    buf = i :: i3 :: i2 :: i1 :: i0 :: payload
    /\ info = byte_to_Z i /\ id = be_u32 i3 i2 i1 i0
    /\ length payload = 8%nat.
Proof.
  unfold UDP_STRUCT_unpack.
  destruct buf as [|i [|i3 [|i2 [|i1 [|i0 data]]]]]; try discriminate.
  destruct (length data =? 8)%nat eqn:Hlen; [|discriminate].
  apply Nat.eqb_eq in Hlen. intros [= <- <- <-].
  by exists i, i3, i2, i1, i0.
Qed.

(** X6. Unpacking a UDP buffer succeeds exactly on buffers of 13 bytes.
    What it returns is in range (info below 256, identifier below 2^32,
    8 bytes of payload), and the buffer is determined by it: no two
    buffers unpack to the same three fields. *)
Theorem UDP_STRUCT_unpack_exact (buf : list byte) :
  (is_Some (UDP_STRUCT_unpack buf) <-> length buf = 13%nat)
  /\ forall info id payload,
       UDP_STRUCT_unpack buf = Some (info, id, payload) ->
       0 <= info < 256 /\ 0 <= id < 2 ^ 32 /\ length payload = 8%nat
       /\ forall buf',
            UDP_STRUCT_unpack buf' = Some (info, id, payload) -> buf' = buf.
Proof.
  split.
  - split.
    + intros [[[info id] payload] H].
      apply UDP_STRUCT_unpack_Some in H
        as (i & i3 & i2 & i1 & i0 & -> & _ & _ & Hlen).
      simpl. by rewrite Hlen.
    + intros Hlen. unfold UDP_STRUCT_unpack.
      destruct buf as [|i [|i3 [|i2 [|i1 [|i0 data]]]]]; try discriminate.
      simpl in Hlen. injection Hlen as Hlen. rewrite Hlen. by eexists.
  - intros info id payload H.
    apply UDP_STRUCT_unpack_Some in H
      as (i & i3 & i2 & i1 & i0 & -> & -> & -> & Hlen).
    split_and!; try apply byte_to_Z_range; try apply be_u32_range; try done.
    intros buf' H'.
    apply UDP_STRUCT_unpack_Some in H'
      as (j & j3 & j2 & j1 & j0 & -> & Hj & Hid & _).
    apply byte_to_Z_inj in Hj as ->.
    apply be_u32_inj in Hid. by injection Hid as -> -> -> ->.
Qed.

(** ** What the mailbox holds *)

Section MailboxAll.

Variable P : Z -> item -> Prop.
Hypothesis P_rx : forall r k it, _rx_loop_body r = RxAppend k it -> P k it.

Lemma mailbox_all_empty : mailbox_all P ∅.
Proof. intros k q x Hk. by rewrite lookup_empty in Hk. Qed.

Lemma mailbox_append_all k it mb :
  P k it -> mailbox_all P mb -> mailbox_all P (mailbox_append k it mb).
Proof.
  intros Hit Hmb k' q it'. unfold mailbox_append.
  destruct (decide (k = k')) as [<-|Hne].
  - rewrite lookup_insert_eq. intros [= <-] Hin.
    apply elem_of_app in Hin as [Hin|Hin].
    + destruct (mb !! k) as [q|] eqn:Hk; simpl in Hin.
      * by apply (Hmb k q).
      * by apply elem_of_nil in Hin.
    + by apply list_elem_of_singleton in Hin as ->.
  - rewrite lookup_insert_ne by done. apply Hmb.
Qed.

Lemma wait_for_packet_turn_all k deadline now stop mb :
  mailbox_all P mb ->
  mailbox_all P (wait_for_packet_turn k deadline now stop mb).2
  /\ forall it, (wait_for_packet_turn k deadline now stop mb).1 = Deliver it ->
                P k it.
Proof.
  intros Hmb. unfold wait_for_packet_turn.
  destruct (mb !! k) as [[|x [|y queue]]|] eqn:Hk; simpl;
    try (destruct (bool_decide _ || stop); by split).
  - split.
    + intros k' q it. destruct (decide (k = k')) as [<-|Hne].
      * by rewrite lookup_delete_eq.
      * rewrite lookup_delete_ne by done. apply Hmb.
    + intros it [= <-]. apply (Hmb k [x]); [done | by left].
  - split.
    + intros k' q it. destruct (decide (k = k')) as [<-|Hne].
      * rewrite lookup_insert_eq. intros [= <-] Hin.
        apply (Hmb k (x :: y :: queue)); [done | by right].
      * rewrite lookup_insert_ne by done. apply Hmb.
    + intros it [= <-]. apply (Hmb k (x :: y :: queue)); [done | by left].
Qed.

Lemma port_run_all ops mb :
  mailbox_all P mb ->
  mailbox_all P (port_run ops mb).1
  /\ Forall (fun d => P d.1 d.2) (port_run ops mb).2.
Proof.
  revert mb. induction ops as [|op ops IH]; intros mb Hmb; [by split|].
  rewrite port_run_cons.
  destruct (port_compile op) as [mop|] eqn:Hop; [|by apply IH].
  assert (mailbox_all P (mailbox_step mop mb).1
          /\ Forall (fun d => P d.1 d.2)
               (from_option (fun x => [x]) [] (mailbox_step mop mb).2))
    as [H1 H2].
  { destruct mop as [k it|k deadline now stop]; simpl.
    - split; [|constructor]. apply mailbox_append_all; [|done].
      destruct op as [r|]; simpl in Hop; [|discriminate].
      destruct (_rx_loop_body r) eqn:Hr; try discriminate.
      injection Hop as -> ->. by apply (P_rx r).
    - pose proof (wait_for_packet_turn_all k deadline now stop mb Hmb)
        as [Ha Hd].
      destruct (wait_for_packet_turn k deadline now stop mb) as [[x| |r] mb'];
        simpl in *; split; try done.
      constructor; [|constructor]. by apply Hd. }
  destruct (mailbox_step mop mb) as [mb1 d]. cbn [fst snd] in *.
  destruct (IH mb1 H1) as [IHa IHd].
  destruct (port_run ops mb1) as [mb2 ds]. cbn [fst snd] in *.
  split; [done|]. by apply Forall_app.
Qed.

Lemma wait_for_packet_all k timeout t0 script mb :
  mailbox_all P mb ->
  mailbox_all P (wait_for_packet k timeout t0 script mb).2
  /\ forall it, (wait_for_packet k timeout t0 script mb).1 = Return (Some it) ->
                P k it.
Proof.
  unfold wait_for_packet. generalize (t0 + timeout). intros deadline.
  revert mb. induction script as [|w script IH]; intros mb Hmb; simpl;
    [by split|].
  destruct (port_run_all (wk_others w) mb Hmb) as [Hmb1 _].
  destruct (wait_for_packet_turn_all k deadline (wk_now w) (wk_stop w) _ Hmb1)
    as [Hk Hd].
  destruct (wait_for_packet_turn k deadline (wk_now w) (wk_stop w) _)
    as [[x| |r] mb1]; simpl in *.
  - split; [done|]. intros it [= <-]. by apply Hd.
  - by split.
  - by apply IH.
Qed.

End MailboxAll.

Lemma _rx_loop_body_wf r k it : _rx_loop_body r = RxAppend k it -> item_wf k it.
Proof.
  intros H. apply _rx_loop_body_append in H
    as (datagram & info & payload & -> & Hlen & Hu & ->).
  pose proof Hu as Hf. apply UDP_STRUCT_unpack_Some in Hf
    as (i & i3 & i2 & i1 & i0 & _ & -> & -> & Hpl).
  pose proof (byte_to_Z_range i) as Hinfo.
  pose proof (be_u32_range i3 i2 i1 i0) as Hid.
  unfold item_wf, item_packet, item_info, item_can_id, item_payload. simpl.
  rewrite length_take, take_take. split_and!; try done; lia.
Qed.

(** X7. Whatever a waiter is handed was made by the receive loop from a
    datagram of at least 13 bytes: the entry keeps at most 64 bytes of
    it, its info byte, identifier and payload are what the first 13
    bytes unpack to, the identifier is the one waited for and is below
    2^32, and the payload has 8 bytes. *)
Theorem delivered_entries_are_well_formed (ops : list port_op) (X : Z) (it : item) :
  (X, it) ∈ (port_run ops ∅).2 -> item_wf X it.
Proof.
  intros Hin.
  destruct (port_run_all item_wf _rx_loop_body_wf ops ∅
              (mailbox_all_empty item_wf)) as [_ Hall].
  rewrite Forall_forall in Hall. by apply (Hall (X, it)).
Qed.

Lemma delivered_entries_are_well_formed_witness :
  item_wf 0x123 (sample_long, 8, 0x123, sample_payload).
Proof.
  apply (delivered_entries_are_well_formed
           [OpRecv (Received sample_long); OpWait 0x123 500 0 false]).
  vm_compute. constructor.
Defined.

(** ** Whole calls of [wait_for_packet] *)

Lemma port_run_app ops1 ops2 (mb : gmap Z (list item)) :
  (port_run (ops1 ++ ops2) mb).1 = (port_run ops2 (port_run ops1 mb).1).1.
Proof.
  revert mb. induction ops1 as [|op ops1 IH]; intros mb; [done|].
  change ((op :: ops1) ++ ops2) with (op :: (ops1 ++ ops2)).
  rewrite !port_run_cons.
  destruct (port_compile op) as [mop|]; [|by apply IH].
  destruct (mailbox_step mop mb) as [mb1 d]. specialize (IH mb1).
  destruct (port_run (ops1 ++ ops2) mb1) as [m1 d1].
  destruct (port_run ops1 mb1) as [m2 d2]. exact IH.
Qed.

(** X8. A datagram that is queued when a waiter looks is returned by
    that look, whatever the clock and the stop event say - also with a
    timeout of zero, and also after the stop event is set. The call
    takes the head of the queue and leaves the rest of that queue and
    all other queues as they were. *)
Theorem queued_datagram_is_returned_at_once
    (X timeout t0 : Z) (w : wake) (rest : list wake)
    (mb : gmap Z (list item)) (it : item) (q : list item) :
  queue_of X (port_run (wk_others w) mb).1 = it :: q ->
  (wait_for_packet X timeout t0 (w :: rest) mb).1 = Return (Some it)
  /\ queue_of X (wait_for_packet X timeout t0 (w :: rest) mb).2 = q
  /\ forall Y, Y <> X ->
       queue_of Y (wait_for_packet X timeout t0 (w :: rest) mb).2
       = queue_of Y (port_run (wk_others w) mb).1.
Proof.
  intros Hq. unfold wait_for_packet. cbn [wait_for_packet_loop].
  destruct (wait_for_packet_turn_queue X (t0 + timeout) (wk_now w) (wk_stop w)
              (port_run (wk_others w) mb).1) as (Ht & Hs & Ho).
  rewrite Hq in Ht, Hs.
  destruct (wait_for_packet_turn X (t0 + timeout) (wk_now w) (wk_stop w) _)
    as [t mb1]. cbn [fst snd] in *. subst t. by split_and!.
Qed.

Lemma queued_datagram_is_returned_at_once_witness :
  (wait_for_packet 0x123 0 0
     [mkWake [OpRecv (Received sample_datagram)] 900 true] ∅).1
  = Return (Some sample_item).
Proof.
  apply (queued_datagram_is_returned_at_once 0x123 0 0
           (mkWake [OpRecv (Received sample_datagram)] 900 true) [] ∅
           sample_item []).
  reflexivity.
Defined.

Lemma wait_for_packet_loop_None X deadline script (mb mb' : gmap Z (list item)) :
  wait_for_packet_loop X deadline script mb = (Return None, mb') ->
  exists pre w rest,
    script = pre ++ w :: rest
    /\ Forall (fun v => wk_stop v = false /\ wk_now v < deadline) pre
    /\ (wk_stop w = true \/ deadline <= wk_now w)
    /\ mb' = (port_run (concat (wk_others <$> (pre ++ [w]))) mb).1
    /\ queue_of X mb' = [].
Proof.
  revert mb. induction script as [|v script IH]; intros mb; [discriminate|].
  cbn [wait_for_packet_loop].
  destruct (wait_for_packet_turn_queue X deadline (wk_now v) (wk_stop v)
              (port_run (wk_others v) mb).1) as (Ht & Hs & _).
  destruct (wait_for_packet_turn X deadline (wk_now v) (wk_stop v) _)
    as [t mb1] eqn:Hturn. cbn [fst snd] in *.
  destruct t as [x| |r]; [discriminate| |].
  - intros [= <-]. exists [], v, script.
    destruct (queue_of X (port_run (wk_others v) mb).1) as [|y q] eqn:Hq;
      [|discriminate].
    assert (mb1 = (port_run (wk_others v) mb).1) as ->.
    { revert Hturn. unfold wait_for_packet_turn, queue_of in *.
      destruct ((port_run (wk_others v) mb).1 !! X) as [[|? ?]|];
        try discriminate; destruct (bool_decide _ || wk_stop v);
        by intros [= <-]. }
    split_and!.
    + done.
    + by apply Forall_nil.
    + destruct (bool_decide (deadline - wk_now v <= 0)) eqn:Hd;
        [apply bool_decide_eq_true in Hd; right; lia|].
      destruct (wk_stop v); [by left | discriminate].
    + simpl. by rewrite app_nil_r.
    + done.
  - apply wait_for_packet_turn_block in Hturn as (Hstop & Hr & Hpos & ->).
    intros H. apply IH in H as (pre & w & rest & -> & Hpre & Hw & -> & Hq).
    exists (v :: pre), w, rest. split_and!; try done.
    + constructor; [|done]. split; [done | lia].
    + change ((v :: pre) ++ [w]) with (v :: (pre ++ [w])).
      rewrite fmap_cons. simpl. by rewrite port_run_app.
Qed.

(** X9. A call of [wait_for_packet] returns [None] only at a look at
    which the queue of its identifier is empty and either the stop event
    is set or the deadline has been reached; every earlier look found
    the stop event clear and time left. The call itself has not touched
    the mailbox: it is as the other threads left it. *)
Theorem timeout_leaves_mailbox_untouched
    (X timeout t0 : Z) (script : list wake) (mb mb' : gmap Z (list item)) :
  wait_for_packet X timeout t0 script mb = (Return None, mb') ->
  exists pre w rest,
    script = pre ++ w :: rest
    /\ Forall (fun v => wk_stop v = false /\ wk_now v < t0 + timeout) pre
    /\ (wk_stop w = true \/ t0 + timeout <= wk_now w)
    /\ mb' = (port_run (concat (wk_others <$> (pre ++ [w]))) mb).1
    /\ queue_of X mb' = [].
Proof. apply wait_for_packet_loop_None. Qed.

Lemma timeout_leaves_mailbox_untouched_witness :
  exists pre w rest,
    [mkWake [] 10 false; mkWake [OpRecv (Received sample_short)] 600 false]
    = pre ++ w :: rest
    /\ Forall (fun v => wk_stop v = false /\ wk_now v < 0 + 500) pre
    /\ (wk_stop w = true \/ 0 + 500 <= wk_now w)
    /\ (∅ : gmap Z (list item))
       = (port_run (concat (wk_others <$> (pre ++ [w]))) ∅).1
    /\ queue_of 0x123 (∅ : gmap Z (list item)) = [].
Proof.
  apply (timeout_leaves_mailbox_untouched 0x123 500 0
           [mkWake [] 10 false;
            mkWake [OpRecv (Received sample_short)] 600 false] ∅ ∅).
  reflexivity.
Defined.

(** ** Whole calls of [_wait_for_can_echo] *)

Lemma CAN_STRUCT_unpack_16 native buf :
  is_Some (CAN_STRUCT_unpack native buf) <-> length buf = 16%nat.
Proof.
  unfold CAN_STRUCT_unpack. split.
  - intros [f H].
    do 8 (destruct buf as [|? buf]; [discriminate|]).
    destruct (length buf =? 8)%nat eqn:Hlen; [|discriminate].
    apply Nat.eqb_eq in Hlen. simpl. by rewrite Hlen.
  - intros Hlen.
    do 8 (destruct buf as [|? buf]; [discriminate|]).
    simpl in Hlen. assert (length buf = 8%nat) as -> by lia. by eexists.
Qed.

(** X10. The wait for the CAN echo returns [True] exactly when some
    frame it reads is the echo, read while the stop event is clear and
    before the deadline, after passes that each found the stop event
    clear and time left and brought either nothing or a well-formed
    frame that is not the echo. *)
Theorem can_echo_true_iff native eid ep timeout t0 script :
  _wait_for_can_echo native eid ep timeout t0 script = Return true
  <-> exists pre p rest frame can_id dlc pad data,
        script = pre ++ p :: rest
        /\ Forall (poll_passes native eid ep (t0 + timeout)) pre
        /\ poll_live (t0 + timeout) p
        /\ poll_recv p = Received frame
        /\ CAN_STRUCT_unpack native (take 16 frame)
           = Some (can_id, dlc, pad, data)
        /\ is_echo can_id dlc data eid ep.
Proof.
  unfold _wait_for_can_echo. generalize (t0 + timeout). intros deadline.
  split.
  - induction script as [|q script IH]; [discriminate|].
    cbn [_wait_for_can_echo_loop].
    destruct (poll_stop q) eqn:Hstop; [discriminate|].
    destruct (bool_decide (deadline - poll_now q <= 0)) eqn:Hnow;
      [discriminate|].
    apply bool_decide_eq_false in Hnow.
    assert (poll_live deadline q) as Hlive by (split; [done | lia]).
    destruct (poll_recv q) as [frame| |] eqn:Hrecv; [| |discriminate].
    + unfold CAN_STRUCT_size.
      destruct (CAN_STRUCT_unpack native (take 16 frame))
        as [[[[can_id dlc] pad] data]|] eqn:Hu; [|discriminate].
      destruct (echo_matches can_id dlc data eid ep) eqn:He.
      * intros _. exists [], q, script, frame, can_id, dlc, pad, data.
        split_and!; try done. by apply echo_matches_is_echo.
      * intros H. apply IH in H
          as (pre & p & rest & fr & ci & dl & pa & da & -> & Hpre & Hp).
        exists (q :: pre), p, rest, fr, ci, dl, pa, da.
        split_and!; try apply Hp; [done|].
        constructor; [|done]. split; [done|]. right.
        exists frame, can_id, dlc, pad, data. split_and!; try done.
        rewrite <- echo_matches_is_echo. by rewrite He.
    + intros H. apply IH in H
        as (pre & p & rest & fr & ci & dl & pa & da & -> & Hpre & Hp).
      exists (q :: pre), p, rest, fr, ci, dl, pa, da.
      split_and!; try apply Hp; [done|].
      constructor; [|done]. split; [done | by left].
  - intros (pre & p & rest & frame & can_id & dlc & pad & data
            & -> & Hpre & Hlive & Hrecv & Hu & He).
    rewrite (_wait_for_can_echo_loop_passes native _ _ _ _ _ Hpre).
    rewrite (_wait_for_can_echo_loop_frame native eid ep deadline p rest frame
               can_id dlc pad data Hlive Hrecv Hu).
    apply echo_matches_is_echo in He. by rewrite He.
Qed.

Lemma can_echo_never_raises_lemma native eid ep timeout t0 script e :
  Forall (fun p => forall frame,
            poll_recv p = Received frame -> (16 <= length frame)%nat) script ->
  _wait_for_can_echo native eid ep timeout t0 script <> Raise e.
Proof.
  unfold _wait_for_can_echo. generalize (t0 + timeout). intros deadline.
  induction 1 as [|p script Hp _ IH]; [discriminate|].
  cbn [_wait_for_can_echo_loop].
  destruct (poll_stop p); [discriminate|].
  destruct (bool_decide (deadline - poll_now p <= 0)); [discriminate|].
  destruct (poll_recv p) as [frame| |]; [|done|discriminate].
  specialize (Hp frame eq_refl). unfold CAN_STRUCT_size.
  destruct (proj2 (CAN_STRUCT_unpack_16 native (take 16 frame)))
    as [[[[can_id dlc] pad] data] ->].
  { rewrite length_take. lia. }
  by destruct (echo_matches can_id dlc data eid ep).
Qed.

(** X11. The wait for the CAN echo raises nothing as long as every frame
    the socket hands over has at least the 16 bytes asked for: it ends
    with [True] or [False], or is still polling. *)
Theorem can_echo_never_raises native eid ep timeout t0 script e :
  Forall (fun p => forall frame,
            poll_recv p = Received frame -> (16 <= length frame)%nat) script ->
  _wait_for_can_echo native eid ep timeout t0 script <> Raise e.
Proof. apply can_echo_never_raises_lemma. Qed.

Lemma can_echo_never_raises_witness :
  _wait_for_can_echo little 0x123 sample_payload 500 20
    [mkCanPoll false 25 TimedOut;
     mkCanPoll false 30 (Received sample_other_frame);
     mkCanPoll false 40 (Received sample_echo_frame)] <> Raise "struct.error".
Proof.
  apply (can_echo_never_raises little 0x123 sample_payload 500 20).
  repeat constructor; intros frame [= <-]; vm_compute; lia.
Defined.

(** A frame of fewer than 16 bytes makes the unpacking raise. *)
Example short_frame_raises :
  _wait_for_can_echo little 0x123 sample_payload 500 20
    [mkCanPoll false 30 (Received (take 15 sample_echo_frame))]
  = Raise "struct.error".
Proof. reflexivity. Qed.

(** ** Whole cycles *)

Lemma orb_decide_false (P Q : Prop) `{Decision P, Decision Q} :
  bool_decide (~ P) || bool_decide (~ Q) = false -> P /\ Q.
Proof.
  intros Hor. apply orb_false_iff in Hor as [HP HQ].
  apply bool_decide_eq_false in HP, HQ.
  split; [by destruct (decide P) | by destruct (decide Q)].
Qed.

(** X12. A cycle counts a success only when every step went through:
    the CAN frame was packed and sent, the wait on the mailbox returned
    a datagram with the identifier and the payload of this cycle, that
    datagram was sent back to the bridge, and the wait for the CAN echo
    returned [True]. *)
Theorem success_needs_every_step native self env (mb : gmap Z (list item)) :
  success (cyc_stats (run_cycle native self env mb)) <> success (stats self) ->
  exists frame packet info mb',
    CAN_STRUCT_pack native
      (Z.lor (rnd_base_id env) (if extended self then CAN_EFF_FLAG else 0))
      8 [x00; x00; x00] (rnd_payload env) = Some frame
    /\ can_send_result env = Sent
    /\ wait_for_packet (rnd_base_id env) 500 (udp_t0 env) (udp_wakes env) mb
       = (Return (Some (packet, info, rnd_base_id env, rnd_payload env)), mb')
    /\ udp_send_result env = Sent
    /\ _wait_for_can_echo native (rnd_base_id env) (rnd_payload env) 500
         (can_t0 env) (can_polls env) = Return true
    /\ run_cycle native self env mb
       = mkCycleResult (Return ())
           (record "success" (rnd_base_id env) (stats self)) mb'
           [CanSend frame; SendToBridge packet].
Proof.
  cycle_cases native self env mb; simpl; try congruence.
  intros _. apply orb_decide_false in Hcmp as [-> ->].
  by exists frame, packet, info, mb'.
Qed.

Lemma success_needs_every_step_witness :
  exists frame packet info mb',
    CAN_STRUCT_pack little
      (Z.lor (rnd_base_id sample_env)
         (if extended sample_tester then CAN_EFF_FLAG else 0))
      8 [x00; x00; x00] (rnd_payload sample_env) = Some frame
    /\ can_send_result sample_env = Sent
    /\ wait_for_packet (rnd_base_id sample_env) 500 (udp_t0 sample_env)
         (udp_wakes sample_env) ∅
       = (Return (Some (packet, info, rnd_base_id sample_env,
                        rnd_payload sample_env)), mb')
    /\ udp_send_result sample_env = Sent
    /\ _wait_for_can_echo little (rnd_base_id sample_env)
         (rnd_payload sample_env) 500 (can_t0 sample_env)
         (can_polls sample_env) = Return true
    /\ run_cycle little sample_tester sample_env ∅
       = mkCycleResult (Return ())
           (record "success" (rnd_base_id sample_env) (stats sample_tester)) mb'
           [CanSend frame; SendToBridge packet].
Proof.
  apply (success_needs_every_step little sample_tester sample_env ∅).
  vm_compute. discriminate.
Defined.

Lemma run_cycle_records native self env (mb : gmap Z (list item)) :
  (cyc_status (run_cycle native self env mb) = Return ()
   /\ exists o, o ∈ outcomes
                /\ cyc_stats (run_cycle native self env mb)
                   = record o (rnd_base_id env) (stats self))
  \/ (cyc_status (run_cycle native self env mb) <> Return ()
      /\ cyc_stats (run_cycle native self env mb) = stats self).
Proof.
  cycle_cases native self env mb; simpl;
    try (right; split; [discriminate | reflexivity]);
    left; (split; [reflexivity|]); eexists; (split; [|reflexivity]);
    unfold outcomes; set_solver.
Qed.

(** X13. The loop of a tester keeps its statistics consistent and counts
    its cycles: started with counters that add up, it ends with
    counters that add up, and [total] has grown by at most the number
    of passes. When the loop ends because the stop event is set,
    [total] has grown by exactly the number of cycles run before, and
    closing the CAN socket is the last thing done. *)
Theorem run_loop_counts_cycles native self script (mb : gmap Z (list item)) :
  counters_add_up (stats self) ->
  counters_add_up (cyc_stats (run_loop native self script mb))
  /\ total (stats self) <= total (cyc_stats (run_loop native self script mb))
     <= total (stats self) + Z.of_nat (length script)
  /\ (cyc_status (run_loop native self script mb) = Return () ->
      exists pre env rest,
        script = pre ++ (true, env) :: rest
        /\ Forall (fun c => c.1 = false) pre
        /\ total (cyc_stats (run_loop native self script mb))
           = total (stats self) + Z.of_nat (length pre)
        /\ last (cyc_effects (run_loop native self script mb)) = Some CanClose).
Proof.
  revert self mb. induction script as [|[stop env] script IH]; intros self mb H0.
  - simpl. split_and!; [done | lia | lia | discriminate].
  - cbn [run_loop]. destruct stop.
    + simpl. split_and!; [done | lia | lia |]. intros _.
      exists [], env, script. split_and!; try done. simpl. lia.
    + destruct (run_cycle_records native self env mb)
        as [(Hst & o & Ho & Hrec)|(Hst & Hrec)].
      * rewrite Hst.
        set (self' := mkChannelTester _ _ _ _).
        assert (counters_add_up (stats self')) as H1.
        { simpl. rewrite Hrec. by apply record_adds_up. }
        assert (total (stats self') = total (stats self) + 1) as Ht.
        { simpl. rewrite Hrec. apply record_total. }
        destruct (IH self' (cyc_mailbox (run_cycle native self env mb)) H1)
          as (IHa & IHt & IHr).
        cbn [cyc_status cyc_stats cyc_effects length].
        split_and!; [done | lia | lia |].
        intros Hret. destruct (IHr Hret) as (pre & env' & rest & -> & Hpre & Htot & Hlast).
        exists ((false, env) :: pre), env', rest.
        split_and!; [done | by constructor | simpl; lia |].
        rewrite last_app, Hlast. reflexivity.
      * destruct (cyc_status (run_cycle native self env mb)) as [[]| |] eqn:Hs;
          [done | |]; rewrite ?Hs, Hrec; cbn [length];
          (split_and!; [done | lia | lia | congruence]).
Qed.

Lemma run_loop_counts_cycles_witness :
  counters_add_up
    (cyc_stats (run_loop little sample_tester
                  [(false, sample_env); (true, sample_env)] ∅))
  /\ total (cyc_stats (run_loop little sample_tester
                         [(false, sample_env); (true, sample_env)] ∅)) = 1.
Proof.
  destruct (run_loop_counts_cycles little sample_tester
              [(false, sample_env); (true, sample_env)] ∅)
    as (Ha & _ & _); [reflexivity|].
  split; [exact Ha | reflexivity].
Defined.

Lemma wait_for_packet_wf k timeout t0 script mb it mb' :
  mailbox_all item_wf mb ->
  wait_for_packet k timeout t0 script mb = (Return (Some it), mb') ->
  item_wf k it.
Proof.
  intros Hmb Hw.
  destruct (wait_for_packet_all item_wf _rx_loop_body_wf k timeout t0 script mb
              Hmb) as [_ Hd].
  apply Hd. by rewrite Hw.
Qed.

(** X14. What a cycle sends back to the bridge is a datagram of 13 to 64
    bytes whose first 13 bytes unpack to the identifier and the payload
    of this very cycle, provided the mailbox holds only entries made by
    the receive loop. *)
Theorem echo_carries_what_was_sent
    native self env (mb : gmap Z (list item)) (packet : list byte) :
  mailbox_all item_wf mb ->
  SendToBridge packet ∈ cyc_effects (run_cycle native self env mb) ->
  (13 <= length packet <= 64)%nat
  /\ exists info,
       UDP_STRUCT_unpack (take 13 packet)
       = Some (info, rnd_base_id env, rnd_payload env).
Proof.
  intros Hmb.
  cycle_cases native self env mb; simpl; intros Hin;
    repeat (apply elem_of_cons in Hin as [Hin|Hin]; try discriminate);
    try (by apply elem_of_nil in Hin);
    injection Hin as ->;
    apply orb_decide_false in Hcmp as [-> ->];
    apply (wait_for_packet_wf _ _ _ _ _ _ _ Hmb) in Hwait
      as (Hlen & Hu & _); (split; [exact Hlen | by exists info]).
Qed.

Lemma echo_carries_what_was_sent_witness :
  (13 <= length sample_datagram <= 64)%nat
  /\ exists info,
       UDP_STRUCT_unpack (take 13 sample_datagram)
       = Some (info, rnd_base_id sample_env, rnd_payload sample_env).
Proof.
  apply (echo_carries_what_was_sent little sample_tester sample_env ∅).
  - apply mailbox_all_empty.
  - vm_compute. right. left.
Defined.

Lemma run_cycle_mailbox native self env (mb : gmap Z (list item)) :
  cyc_mailbox (run_cycle native self env mb) = mb
  \/ cyc_mailbox (run_cycle native self env mb)
     = (wait_for_packet (rnd_base_id env) 500 (udp_t0 env) (udp_wakes env) mb).2.
Proof.
  cycle_cases native self env mb; simpl; auto.
Qed.

(** X15. A tester never spoils the mailbox it shares: after any number
    of its cycles, with the other threads running in between, no key is
    bound to an empty queue and every entry is one the receive loop
    made, if that was so at the start. *)
Theorem run_loop_keeps_mailbox_sound
    native self script (mb : gmap Z (list item)) :
  mailbox_pruned mb ->
  mailbox_all item_wf mb ->
  mailbox_pruned (cyc_mailbox (run_loop native self script mb))
  /\ mailbox_all item_wf (cyc_mailbox (run_loop native self script mb)).
Proof.
  revert self mb. induction script as [|[stop env] script IH];
    intros self mb Hp Hw; [by split|].
  cbn [run_loop]. destruct stop; [by split|].
  assert (mailbox_pruned (cyc_mailbox (run_cycle native self env mb))
          /\ mailbox_all item_wf (cyc_mailbox (run_cycle native self env mb)))
    as [Hp1 Hw1].
  { destruct (run_cycle_mailbox native self env mb) as [->| ->]; [by split|].
    split; [by apply wait_for_packet_pruned|].
    by apply (wait_for_packet_all item_wf _rx_loop_body_wf). }
  destruct (cyc_status (run_cycle native self env mb)) as [[]| |];
    [|by split..].
  cbn [cyc_mailbox]. by apply IH.
Qed.

Lemma run_loop_keeps_mailbox_sound_witness :
  mailbox_pruned
    (cyc_mailbox (run_loop little sample_tester
                    [(false, sample_env); (true, sample_env)] ∅))
  /\ mailbox_all item_wf
       (cyc_mailbox (run_loop little sample_tester
                       [(false, sample_env); (true, sample_env)] ∅)).
Proof.
  apply (run_loop_keeps_mailbox_sound little sample_tester
           [(false, sample_env); (true, sample_env)] ∅).
  - apply mailbox_pruned_empty.
  - apply mailbox_all_empty.
Defined.

(** X16. The identifier test of a cycle never fires: on a mailbox filled
    by the receive loop, the datagram a wait returns carries the
    identifier waited for, so a cycle records data_error exactly when
    the payload of the reply differs from the payload sent. *)
Theorem data_error_means_payload_differs
    native self env (mb : gmap Z (list item)) frame
    packet info packet_id udp_payload mb' :
  mailbox_keyed mb ->
  CAN_STRUCT_pack native
    (Z.lor (rnd_base_id env) (if extended self then CAN_EFF_FLAG else 0))
    8 [x00; x00; x00] (rnd_payload env) = Some frame ->
  can_send_result env = Sent ->
  wait_for_packet (rnd_base_id env) 500 (udp_t0 env) (udp_wakes env) mb
  = (Return (Some (packet, info, packet_id, udp_payload)), mb') ->
  packet_id = rnd_base_id env
  /\ (data_errors (cyc_stats (run_cycle native self env mb))
      = data_errors (stats self) + 1
      <-> udp_payload <> rnd_payload env).
Proof.
  intros Hmb Hpack Hcan Hwait.
  destruct (wait_for_packet_own_identifier _ _ _ _ _ _ _ Hmb Hwait) as [Hid _].
  change (item_can_id (packet, info, packet_id, udp_payload)) with packet_id in Hid.
  split; [done|]. subst packet_id.
  unfold run_cycle. rewrite Hpack, Hcan, Hwait.
  rewrite (bool_decide_eq_false_2 (rnd_base_id env <> rnd_base_id env))
    by (intros H; by apply H).
  rewrite orb_false_l.
  destruct (decide (udp_payload = rnd_payload env)) as [Heq|Hne].
  - rewrite (bool_decide_eq_false_2 (udp_payload <> _)) by (intros H; by apply H).
    split; [|done].
    destruct (udp_send_result env);
      [destruct (_wait_for_can_echo _ _ _ _ _ _) as [[|]| |]|]; simpl; lia.
  - rewrite (bool_decide_eq_true_2 (udp_payload <> _)) by done.
    simpl. split; [done | reflexivity].
Qed.

Lemma data_error_means_payload_differs_witness :
  let env := mkCycleEnv 0x123 (replicate 8 x00) Sent
               0 [mkWake [OpRecv (Received sample_datagram)] 10 false] Sent
               20 [] in
  0x123 = rnd_base_id env
  /\ (data_errors (cyc_stats (run_cycle little sample_tester env ∅))
      = data_errors (stats sample_tester) + 1
      <-> sample_payload <> rnd_payload env).
Proof.
  intros env.
  apply (data_error_means_payload_differs little sample_tester env ∅
           ([x23; x01; x00; x00; x08; x00; x00; x00] ++ replicate 8 x00)
           sample_datagram 8 0x123 sample_payload ∅).
  - apply mailbox_keyed_empty.
  - reflexivity.
  - reflexivity.
  - reflexivity.
Defined.

(** X17. The frame a cycle puts on the CAN bus, for an identifier below
    2^29: 16 bytes that unpack to a declared length of 8, zero padding
    and the payload of the cycle, with an identifier whose low 29 bits
    are the identifier drawn and whose bit 31 - the extended flag - is
    set exactly when the upper end of the channel's range is above
    0x7FF, however small the identifier drawn is. *)
Theorem sent_frame_decodes
    native lbl lo hi env (mb : gmap Z (list item)) (frame : list byte) :
  0 <= rnd_base_id env < 2 ^ 29 ->
  CanSend frame
    ∈ cyc_effects (run_cycle native (ChannelTester_init lbl lo hi) env mb) ->
  length frame = 16%nat
  /\ exists can_id,
       CAN_STRUCT_unpack native frame
       = Some (can_id, 8, [x00; x00; x00], pack_s 8 (rnd_payload env))
       /\ Z.land can_id CAN_EFF_MASK = rnd_base_id env
       /\ Z.testbit can_id 31 = bool_decide (hi > 0x7FF).
Proof.
  intros Hid.
  assert (forall fr,
             CAN_STRUCT_pack native
               (Z.lor (rnd_base_id env)
                  (if extended (ChannelTester_init lbl lo hi)
                   then CAN_EFF_FLAG else 0))
               8 [x00; x00; x00] (rnd_payload env) = Some fr ->
             length fr = 16%nat
             /\ exists can_id,
                  CAN_STRUCT_unpack native fr
                  = Some (can_id, 8, [x00; x00; x00],
                          pack_s 8 (rnd_payload env))
                  /\ Z.land can_id CAN_EFF_MASK = rnd_base_id env
                  /\ Z.testbit can_id 31 = bool_decide (hi > 0x7FF)) as Hfr.
  { intros fr Hpack. apply CAN_STRUCT_pack_unpack in Hpack as [Hl Hu].
    split; [done|]. eexists. split; [exact Hu|].
    split; [by apply mask_strips_flag|].
    rewrite Z.lor_spec, (below_pow2_testbit _ 29 31) by (done || lia).
    cbn [extended ChannelTester_init].
    destruct (bool_decide (hi > 2047)); [|apply Z.bits_0].
    change CAN_EFF_FLAG with (2 ^ 31). apply Z.pow2_bits_true. lia. }
  cycle_cases native (ChannelTester_init lbl lo hi) env mb; simpl; intros Hin;
    repeat (apply elem_of_cons in Hin as [Hin|Hin]; try discriminate);
    try (by apply elem_of_nil in Hin);
    injection Hin as ->; by apply Hfr.
Qed.

Lemma sent_frame_decodes_witness :
  length ([x05; x00; x00; x80; x08; x00; x00; x00] ++ sample_payload) = 16%nat
  /\ exists can_id,
       CAN_STRUCT_unpack little
         ([x05; x00; x00; x80; x08; x00; x00; x00] ++ sample_payload)
       = Some (can_id, 8, [x00; x00; x00], pack_s 8 sample_payload)
       /\ Z.land can_id CAN_EFF_MASK = 5
       /\ Z.testbit can_id 31 = bool_decide (0x800 > 0x7FF).
Proof.
  apply (sent_frame_decodes little "vcan1@UDP5556#ch0" 0 0x800
           (mkCycleEnv 5 sample_payload Sent 0 [] Sent 0 []) ∅).
  - vm_compute; split; (discriminate || reflexivity).
  - vm_compute. left.
Defined.

(** ** The receive loop as a whole *)

Lemma port_appends_cons op ops :
  port_appends (op :: ops)
  = match port_append_of op with
    | Some e => e :: port_appends ops
    | None => port_appends ops
    end.
Proof.
  unfold port_appends, port_append_of.
  change (omap port_compile (op :: ops))
    with (match port_compile op with
          | Some mop => mop :: omap port_compile ops
          | None => omap port_compile ops
          end).
  destruct op as [r|k deadline now stop]; simpl; [|done].
  by destruct (_rx_loop_body r).
Qed.

(** X18. Nothing that arrives ends the receive loop: while it is
    running, the stop event is clear and the socket raises no
    [OSError], the loop takes every pass of its script - time-outs,
    datagrams that are too short and well-formed ones alike - and files
    the well-formed datagrams in the order they came. *)
Theorem rx_loop_keeps_going (script : list rx_pass) :
  Forall (fun p => rx_running p = true /\ rx_stop p = false
                   /\ rx_recv p <> RecvOSError) script ->
  _rx_loop script
  = (port_appends ((fun p => OpRecv (rx_recv p)) <$> script), Pending).
Proof.
  induction 1 as [|p script (Hrun & Hstop & Hrecv) _ IH]; [done|].
  rewrite fmap_cons, port_appends_cons. cbn [_rx_loop port_append_of].
  rewrite Hrun, Hstop. cbn [negb andb].
  destruct (_rx_loop_body (rx_recv p)) as [| |k it|e] eqn:Hbody.
  - exact IH.
  - destruct (rx_recv p) as [d| |]; [|discriminate|done].
    simpl in Hbody. destruct (_ <? _)%nat; [discriminate|].
    by destruct (UDP_STRUCT_unpack _) as [[[? ?] ?]|].
  - by rewrite IH.
  - by apply _rx_loop_body_no_raise in Hbody.
Qed.

Lemma rx_loop_keeps_going_witness :
  _rx_loop [mkRxPass true false TimedOut;
            mkRxPass true false (Received sample_short);
            mkRxPass true false (Received sample_datagram)]
  = ([(0x123, sample_item)], Pending).
Proof.
  apply (rx_loop_keeps_going
           [mkRxPass true false TimedOut;
            mkRxPass true false (Received sample_short);
            mkRxPass true false (Received sample_datagram)]).
  repeat constructor; discriminate.
Defined.

(** ** Appending and taking *)

(** X19. Filing a datagram under an identifier that has no queue and
    then serving a waiter for that identifier hands the datagram over
    and leaves the mailbox exactly as it was before: the key made for
    the datagram is removed with it. *)
Theorem append_then_take_restores_mailbox
    {A : Type} (k deadline now : Z) (stop : bool) (x : A)
    (mb : gmap Z (list A)) :
  mb !! k = None ->
  wait_for_packet_turn k deadline now stop (mailbox_append k x mb)
  = (Deliver x, mb).
Proof.
  intros Hk. unfold wait_for_packet_turn, mailbox_append.
  rewrite lookup_insert_eq, Hk. simpl.
  by rewrite delete_insert_eq, delete_id.
Qed.

Lemma append_then_take_restores_mailbox_witness :
  wait_for_packet_turn 0x123 0 900 true
    (mailbox_append 0x123 sample_item
       (mailbox_append 0x124 sample_item ∅))
  = (Deliver sample_item, mailbox_append 0x124 sample_item ∅).
Proof.
  apply (append_then_take_restores_mailbox 0x123 0 900 true sample_item
           (mailbox_append 0x124 sample_item ∅)).
  reflexivity.
Defined.

(** ** Cycles and exceptions *)





(** An identifier that does not fit 32 bits ends the thread before
    anything is sent or recorded. *)
Example oversized_identifier_raises :
  run_cycle little sample_tester
    (mkCycleEnv 0x100000000 sample_payload Sent 0 [] Sent 0 []) ∅
  = mkCycleResult (Raise "struct.error") (stats sample_tester) ∅ [].
Proof. reflexivity. Qed.

(** * The claims that the code corrects *)

(** ** Datagrams of 13 bytes and more *)

Lemma port_run_recv_append datagram k it (mb : gmap Z (list item)) :
  _rx_loop_body (Received datagram) = RxAppend k it ->
  port_run [OpRecv (Received datagram)] mb = (mailbox_append k it mb, []).
Proof.
  intros Hbody. rewrite port_run_cons. unfold port_compile. by rewrite Hbody.
Qed.

(** C1, as the code has it. The receive loop sorts datagrams by one
    test, [len(packet) < 13]. A datagram shorter than 13 bytes is
    dropped: nothing is appended, every schedule runs as if it had not
    come, and a waiter whose queue is empty and whose deadline has
    passed gets [None]. A datagram of 13 bytes or more - 14, 64 or
    beyond - is filed: its first 13 bytes unpack, the entry made of its
    first 64 bytes (what the socket was asked for) and the unpacked
    fields goes to the end of the queue of the identifier found there,
    and a waiter for that identifier on an empty queue gets that entry
    at its next look. *)
Theorem datagram_length_decides_filing (datagram : list byte) :
  ((length datagram < 13)%nat ->
   _rx_loop_body (Received datagram) = RxContinue
   /\ (forall before after mb,
         port_run (before ++ OpRecv (Received datagram) :: after) mb
         = port_run (before ++ after) mb)
   /\ (forall X timeout t0 now stop rest (mb : gmap Z (list item)),
         mb !! X = None ->
         t0 + timeout <= now ->
         wait_for_packet X timeout t0
           (mkWake [OpRecv (Received datagram)] now stop :: rest) mb
         = (Return None, mb)))
  /\ ((13 <= length datagram)%nat ->
      exists info can_id payload,
        UDP_STRUCT_unpack (take 13 datagram) = Some (info, can_id, payload)
        /\ _rx_loop_body (Received datagram)
           = RxAppend can_id (take 64 datagram, info, can_id, payload)
        /\ (forall mb : gmap Z (list item),
              queue_of can_id (port_run [OpRecv (Received datagram)] mb).1
              = queue_of can_id mb
                  ++ [(take 64 datagram, info, can_id, payload)])
        /\ (forall timeout t0 now stop rest (mb : gmap Z (list item)),
              mb !! can_id = None ->
              wait_for_packet can_id timeout t0
                (mkWake [OpRecv (Received datagram)] now stop :: rest) mb
              = (Return (Some (take 64 datagram, info, can_id, payload)), mb))).
Proof.
  split.
  - apply short_datagram_is_dropped.
  - intros Hlen.
    destruct (take_13_unpack datagram Hlen)
      as (i & i3 & i2 & i1 & i0 & data & _ & _ & Hu).
    unfold UDP_STRUCT_size in Hu.
    exists (byte_to_Z i), (be_u32 i3 i2 i1 i0), data.
    assert (_rx_loop_body (Received datagram)
            = RxAppend (be_u32 i3 i2 i1 i0)
                (take 64 datagram, byte_to_Z i, be_u32 i3 i2 i1 i0, data))
      as Hbody.
    { apply _rx_loop_body_append. by exists datagram, (byte_to_Z i), data. }
    split_and!; [done | done | |].
    + intros mb. rewrite (port_run_recv_append _ _ _ mb Hbody). cbn [fst].
      rewrite queue_of_append. by rewrite decide_True.
    + intros timeout t0 now stop rest mb Hk. unfold wait_for_packet.
      cbn [wait_for_packet_loop wk_others wk_now wk_stop].
      rewrite (port_run_recv_append _ _ _ mb Hbody). cbn [fst].
      unfold wait_for_packet_turn, mailbox_append.
      rewrite lookup_insert_eq, Hk. simpl.
      by rewrite delete_insert_eq, delete_id.
Qed.

Lemma datagram_length_decides_filing_witness :
  (_rx_loop_body (Received sample_short) = RxContinue
   /\ wait_for_packet 0x123 500 0
        [mkWake [OpRecv (Received sample_short)] 500 false] ∅
      = (Return None, ∅))
  /\ exists info can_id payload,
       UDP_STRUCT_unpack (take 13 sample_huge) = Some (info, can_id, payload)
       /\ _rx_loop_body (Received sample_huge)
          = RxAppend can_id (take 64 sample_huge, info, can_id, payload)
       /\ (forall mb : gmap Z (list item),
             queue_of can_id (port_run [OpRecv (Received sample_huge)] mb).1
             = queue_of can_id mb
                 ++ [(take 64 sample_huge, info, can_id, payload)])
       /\ (forall timeout t0 now stop rest (mb : gmap Z (list item)),
             mb !! can_id = None ->
             wait_for_packet can_id timeout t0
               (mkWake [OpRecv (Received sample_huge)] now stop :: rest) mb
             = (Return (Some (take 64 sample_huge, info, can_id, payload)), mb)).
Proof.
  split.
  - destruct (datagram_length_decides_filing sample_short) as [Hshort _].
    destruct Hshort as (H1 & _ & H3); [vm_compute; lia|].
    split; [exact H1|]. apply H3; [apply lookup_empty | lia].
  - destruct (datagram_length_decides_filing sample_huge) as [_ Hlong].
    apply Hlong. vm_compute. lia.
Defined.

(** A datagram of 70 bytes: 64 of them are kept. *)
Example huge_datagram_is_cut :
  length sample_huge = 70%nat
  /\ _rx_loop_body (Received sample_huge)
     = RxAppend 0x123 (take 64 sample_huge, 8, 0x123, sample_payload)
  /\ length (take 64 sample_huge) = 64%nat.
Proof. split_and!; reflexivity. Qed.

(** ** Waits and the stop event *)




(** The socket is given a timeout exactly once for each pass that the
    loop lets reach [recvfrom]; while the loop is still polling at the
    end of its script, that is every pass. *)
Lemma _wait_for_can_echo_settimeouts_pending native eid ep deadline script :
  _wait_for_can_echo_loop native eid ep deadline script = Pending ->
  _wait_for_can_echo_settimeouts native eid ep deadline script
  = (fun p => deadline - poll_now p) <$> script.
Proof.
  induction script as [|p script IH]; [done|].
  cbn [_wait_for_can_echo_loop _wait_for_can_echo_settimeouts].
  destruct (poll_stop p); [discriminate|].
  destruct (bool_decide _); [discriminate|].
  rewrite fmap_cons.
  destruct (poll_recv p) as [frame| |]; [| |discriminate].
  - destruct (CAN_STRUCT_unpack native (take CAN_STRUCT_size frame))
      as [[[[can_id dlc] pad] data]|]; [|discriminate].
    destruct (echo_matches can_id dlc data eid ep); [discriminate|].
    intros H. by rewrite IH.
  - intros H. by rewrite IH.
Qed.



(** ** The echo as specified and as tested *)

(** C7 as stated fails. The code takes for the echo a frame of declared
    length 3 whose data agree with the payload sent in the first three
    bytes only, and a frame that carries the remote-request flag; by the
    words of the specification neither is one. *)
Lemma frames_accepted_beyond_the_specified_echo :
  (CAN_STRUCT_unpack little sample_dlc3_frame
   = Some (0x123, 3, [x00; x00; x00],
           [x11; x22; x33; x00; x00; x00; x00; x00])
   /\ _wait_for_can_echo_loop little 0x123 sample_payload 520
        [mkCanPoll false 40 (Received sample_dlc3_frame)] = Return true
   /\ ~ echo_as_specified 0x123 3 [x11; x22; x33; x00; x00; x00; x00; x00]
          0x123 sample_payload)
  /\ (CAN_STRUCT_unpack little sample_rtr_frame
      = Some (0x40000123, 8, [x00; x00; x00], sample_payload)
      /\ _wait_for_can_echo_loop little 0x123 sample_payload 520
           [mkCanPoll false 40 (Received sample_rtr_frame)] = Return true
      /\ ~ echo_as_specified 0x40000123 8 sample_payload 0x123 sample_payload).
Proof.
  split; (split_and!; [reflexivity | reflexivity |]);
    intros [Hid Hdata]; vm_compute in Hid, Hdata; discriminate.
Qed.

(** Where the two notions meet: a frame of declared length 8 or more
    with no remote-request or error flag, against a payload of 8 bytes
    and an identifier below 2^29, is the echo by the code's test exactly
    when it is one by the words of the specification. *)
Lemma is_echo_as_specified can_id dlc data eid ep :
  0 <= can_id < 2 ^ 32 ->
  Z.testbit can_id 30 = false -> Z.testbit can_id 29 = false ->
  8 <= dlc -> length data = 8%nat -> length ep = 8%nat ->
  is_echo can_id dlc data eid ep <-> echo_as_specified can_id dlc data eid ep.
Proof.
  intros Hid H30 H29 Hdlc Hdata Hep.
  unfold is_echo, echo_as_specified.
  rewrite <- take_eq_lookup.
  rewrite !take_ge by lia.
  assert (can_id mod 2 ^ 29 = Z.ldiff can_id CAN_EFF_FLAG) as ->; [|done].
  apply Z.bits_inj'. intros n Hn. rewrite Z.ldiff_spec.
  change CAN_EFF_FLAG with (2 ^ 31).
  destruct (Z.ltb_spec n 29).
  - rewrite Z.mod_pow2_bits_low, Z.pow2_bits_false by lia.
    by rewrite andb_true_r.
  - rewrite Z.mod_pow2_bits_high by lia.
    destruct (decide (n = 31)) as [->|].
    + rewrite Z.pow2_bits_true by lia. by rewrite andb_false_r.
    + rewrite Z.pow2_bits_false by lia. rewrite andb_true_r.
      destruct (decide (n = 29)) as [->|]; [done|].
      destruct (decide (n = 30)) as [->|]; [done|].
      symmetry. apply (below_pow2_testbit can_id 32); [done | lia].
Qed.
